(** * Activity event router of [packages/event-handler/src/activity.ts]

    A shallow embedding of the chat-room message handler built by
    [makeChatRoomMsgHandler] and of the class [_ActivityEvents], which keeps
    a list of handlers and dispatches activity events to them.

    JavaScript values are modelled as follows.
    - An [EventMode] is the string the running program holds; the union type
      [ActivityTriggerMode] only restricts it statically.
    - A [Set<EventMode>] is a [gset EventMode]; only [has] is ever used.
    - A listener is a function reference, compared with [===]: a number.
      What the function does when called is given by [behaviour].
    - The private array [_handlers] is a [list Handler]; [push] appends.
    - A method is a computation [Js A]: it reads and writes the [World] and
      completes normally or abruptly (a [throw]). *)

From stdpp Require Import base strings list gmap.

Open Scope string_scope.
Open Scope list_scope.
Open Scope nat_scope.

(** ** Data *)

Definition EventMode := string.

(** Modelled from the spec: the union type [ActivityTriggerMode] of
    [@sugarch/bc-mod-types], which is imported but not part of this package;
    the six subscription modes the specification enumerates. *)
Definition ActivityTriggerMode : gset EventMode :=
  {[ "SelfOnSelf"; "OthersOnSelf"; "SelfOnOthers";
     "AnyOnSelf"; "SelfInvolved"; "AnyInvolved" ]}.

(** The fields of the host's [Character] and of [ActivityInfo] that the
    handler reads. Member numbers are JavaScript numbers holding integers. *)
Record Character := { MemberNumber : Z }.

Record ActivityInfo := {
  SourceCharacter : Z;
  TargetCharacter : Z;
  ActivityName : string
}.

(** [[sender: Character, player: PlayerCharacter, info: ActivityInfo]] *)
Definition EventArgType : Type := Character * Character * ActivityInfo.

Definition Listener := nat.

Module Handler.
Record t := {
  mode : EventMode;
  activity : option string;
  listener : Listener;
  once : bool
}.
End Handler.
Abbreviation Handler := Handler.t.

Global Instance Character_eq_dec : EqDecision Character.
Proof. solve_decision. Defined.
Global Instance ActivityInfo_eq_dec : EqDecision ActivityInfo.
Proof. solve_decision. Defined.
Global Instance Handler_eq_dec : EqDecision Handler.
Proof. solve_decision. Defined.

(** A thrown value. *)
Definition Error := string.

(** What the outside can observe of a run: which handler's listener was
    called with which arguments, and what was written by [console.error]
    (the message and the caught value). *)
Inductive Effect :=
| Invoked (handler : Handler) (args : EventArgType)
| ConsoleError (message : string) (e : Error).

Record World := {
  _handlers : list Handler;
  trace : list Effect
}.

(** ** Computations that may throw *)

Inductive Completion (A : Type) :=
| Normal (a : A)
| Throw (e : Error).
Arguments Normal {A} a.
Arguments Throw {A} e.

Definition Js (A : Type) : Type := World → Completion A * World.

Global Instance Js_ret : MRet Js := λ A a w, (Normal a, w).

Global Instance Js_bind : MBind Js := λ A B f m w,
  match m w with
  | (Normal a, w') => f a w'
  | (Throw e, w') => (Throw e, w')
  end.

Definition throw {A} (e : Error) : Js A := λ w, (Throw e, w).

(** [try { m } catch (e) { h e }] *)
Definition try_catch {A} (m : Js A) (h : Error → Js A) : Js A := λ w,
  match m w with
  | (Normal a, w') => (Normal a, w')
  | (Throw e, w') => h e w'
  end.

Definition get_handlers : Js (list Handler) := λ w, (Normal (_handlers w), w).

Definition set_handlers (hs : list Handler) : Js unit := λ w,
  (Normal tt, {| _handlers := hs; trace := trace w |}).

Definition observe (ev : Effect) : Js unit := λ w,
  (Normal tt, {| _handlers := _handlers w; trace := trace w ++ [ev] |}).

(** [for (const x of xs) { ... }] with the loop's local variable threaded. *)
Fixpoint for_of {A B} (xs : list A) (body : A → B → Js B) (acc : B) : Js B :=
  match xs with
  | [] => mret acc
  | x :: xs' => acc' ← body x acc; for_of xs' body acc'
  end.

(** The world a computation leaves, and the completion it ends with. *)
Definition exec {A} (m : Js A) (w : World) : World := (m w).2.
Definition completion {A} (m : Js A) (w : World) : Completion A := (m w).1.

(** ** What a listener does when it is called

    A listener is arbitrary client code holding the exported emitter. Through
    its public methods it can subscribe and unsubscribe, and it can return or
    throw. A call of such a listener is described by the method calls it
    makes, in order, and by the value it throws, if any. The description may
    depend on the listener, on the arguments and on the whole world at the
    time of the call, which covers listeners that keep state of their own.
    Listeners are taken to terminate. [emit] is private, but a listener can
    still cause a dispatch through the host; listeners that do are
    described by a [Script] and run by [Reentrant.emit], further down. *)

Inductive Call :=
| call_on (mode : EventMode) (activity : string) (listener : Listener)
| call_once (mode : EventMode) (activity : string) (listener : Listener)
| call_onAny (mode : EventMode) (listener : Listener)
| call_onceAny (mode : EventMode) (listener : Listener)
| call_off (mode : EventMode) (activity : option string)
    (listener : option Listener).

Record Body := {
  calls : list Call;
  throws : option Error
}.

(** ** The mode sets of the message handler *)

Module modesFilters.
Definition OthersOnSelf : gset EventMode :=
  {[ "OthersOnSelf"; "AnyOnSelf"; "SelfInvolved"; "AnyInvolved" ]}.
Definition SelfOnSelf : gset EventMode :=
  {[ "SelfOnSelf"; "AnyOnSelf"; "SelfInvolved"; "AnyInvolved" ]}.
Definition SelfOnOthers : gset EventMode :=
  {[ "SelfOnOthers"; "SelfInvolved"; "AnyInvolved" ]}.
Definition OthersOnOthers : gset EventMode :=
  {[ "AnyInvolved" ]}.
End modesFilters.

Definition HandlerRunner : Type :=
  gset EventMode → string → EventArgType → Js unit.

Record ChatRoomMessageHandler (Data Metadata : Type) := {
  Description : string;
  Priority : Z;
  Callback : Data → Character → string → Metadata → Js bool
}.
Arguments Description {Data Metadata} _.
Arguments Priority {Data Metadata} _.
Arguments Callback {Data Metadata} _.

Section MessageHandler.

(** The host's global [Player], the package's [version], and the parser
    [ChatMessageTools.pullActivityInfo] ([None] when the message carries no
    activity) are outside this file. *)
Context {Data Metadata : Type}.
Variable Player : Character.
Variable version : string.
Variable pullActivityInfo :
  Data → Character → string → Metadata → option ActivityInfo.

(** The immediately invoked function that computes [mode] in [Callback]. *)
Definition Callback_mode (sender : Character) (info : ActivityInfo)
  : gset EventMode :=
  if bool_decide (TargetCharacter info = MemberNumber Player) then
    if bool_decide (MemberNumber sender = TargetCharacter info)
    then modesFilters.SelfOnSelf
    else modesFilters.OthersOnSelf
  else if bool_decide (SourceCharacter info = MemberNumber Player)
  then modesFilters.SelfOnOthers
  else modesFilters.OthersOnOthers.

Definition makeChatRoomMsgHandler (runner : HandlerRunner)
  : ChatRoomMessageHandler Data Metadata :=
  {| Description := "SugarChain Activity Handler v" +:+ version;
     Priority := 290;
     Callback := λ data sender msg metadata,
       match pullActivityInfo data sender msg metadata with
       | None => mret false
       | Some info =>
           let mode := Callback_mode sender info in
           runner mode (ActivityName info) (sender, Player, info);;
           mret false
       end |}.

End MessageHandler.

(** ** The class [_ActivityEvents] *)

Module ActivityEvents.

(** [this._handlers.push(h)] *)
Definition push (h : Handler) : Js unit :=
  hs ← get_handlers; set_handlers (hs ++ [h]).

Definition on (mode : EventMode) (activity : string) (listener : Listener)
  : Js unit :=
  push {| Handler.mode := mode; Handler.activity := Some activity;
          Handler.listener := listener; Handler.once := false |}.

Definition once (mode : EventMode) (activity : string) (listener : Listener)
  : Js unit :=
  push {| Handler.mode := mode; Handler.activity := Some activity;
          Handler.listener := listener; Handler.once := true |}.

Definition onAny (mode : EventMode) (listener : Listener) : Js unit :=
  push {| Handler.mode := mode; Handler.activity := None;
          Handler.listener := listener; Handler.once := false |}.

Definition onceAny (mode : EventMode) (listener : Listener) : Js unit :=
  push {| Handler.mode := mode; Handler.activity := None;
          Handler.listener := listener; Handler.once := true |}.

(** [off(mode, activity, listener?)]; [listener] is [None] when the
    argument is left out. *)
Definition off (mode : EventMode) (activity : option string)
    (listener : option Listener) : Js unit :=
  hs ← get_handlers;
  match listener with
  | None =>
      set_handlers
        (filter (λ handler, Handler.mode handler ≠ mode
                            ∨ Handler.activity handler ≠ activity) hs)
  | Some listener =>
      set_handlers
        (filter (λ handler, Handler.mode handler ≠ mode
                            ∨ Handler.activity handler ≠ activity
                            ∨ Handler.listener handler ≠ listener) hs)
  end.

(** A method call made by client code. *)
Definition perform (c : Call) : Js unit :=
  match c with
  | call_on mode activity listener => on mode activity listener
  | call_once mode activity listener => once mode activity listener
  | call_onAny mode listener => onAny mode listener
  | call_onceAny mode listener => onceAny mode listener
  | call_off mode activity listener => off mode activity listener
  end.

Section Emit.

Variable behaviour : Listener → EventArgType → World → Body.

(** [handler.listener(...args)] *)
Definition call_listener (handler : Handler) (args : EventArgType)
  : Js unit :=
  observe (Invoked handler args);;
  body ← (λ w, (Normal (behaviour (Handler.listener handler) args w), w));
  for_of (calls body) (λ c _, perform c) tt;;
  match throws body with
  | Some e => throw e
  | None => mret tt
  end.

(** The guard of the loop in [emit]. *)
Definition matches (modeFilter : gset EventMode) (activityName : string)
    (handler : Handler) : bool :=
  (bool_decide (Handler.activity handler = None)
   || bool_decide (Some activityName = Handler.activity handler))
  && bool_decide (Handler.mode handler ∈ modeFilter).

(** The template literal passed to [console.error]; [null] prints as
    the word null. *)
Definition error_message (handler : Handler) : string :=
  "Error in activity event listener for "
  +:+ default "null" (Handler.activity handler)
  +:+ " (" +:+ Handler.mode handler +:+ "):".

(** The statement of the loop in [emit]; [nHandlers] is the list being
    rebuilt. *)
Definition emit_body (modeFilter : gset EventMode) (activityName : string)
    (args : EventArgType) (handler : Handler) (nHandlers : list Handler)
  : Js (list Handler) :=
  if matches modeFilter activityName handler then
    try_catch (call_listener handler args)
      (λ e, observe (ConsoleError (error_message handler) e));;
    if negb (Handler.once handler)
    then mret (nHandlers ++ [handler])
    else mret nHandlers
  else mret (nHandlers ++ [handler]).

Definition emit (modeFilter : gset EventMode) (activityName : string)
    (args : EventArgType) : Js unit :=
  cpListeners ← get_handlers;
  nHandlers ← for_of cpListeners (emit_body modeFilter activityName args) [];
  set_handlers nHandlers.

(** The handler the constructor registers with the host. *)
Definition registered_handler {Data Metadata} (Player : Character)
    (version : string)
    (pullActivityInfo :
       Data → Character → string → Metadata → option ActivityInfo)
  : ChatRoomMessageHandler Data Metadata :=
  makeChatRoomMsgHandler Player version pullActivityInfo
    (λ modeFilter activityName args, emit modeFilter activityName args).

End Emit.

End ActivityEvents.

(** ** Runs of the emitter

    What happens to an emitter over time: client code outside any dispatch
    calls a public method, or the host delivers a message and the registered
    handler calls [emit]. *)

Inductive Op :=
| op_client (c : Call)
| op_dispatch (modeFilter : gset EventMode) (activityName : string)
    (args : EventArgType).

Definition run_op (behaviour : Listener → EventArgType → World → Body)
    (o : Op) : Js unit :=
  match o with
  | op_client c => ActivityEvents.perform c
  | op_dispatch modeFilter activityName args =>
      ActivityEvents.emit behaviour modeFilter activityName args
  end.

Definition run (behaviour : Listener → EventArgType → World → Body)
    (ops : list Op) : Js unit :=
  for_of ops (λ o _, run_op behaviour o) tt.

(** ** Vocabulary of the properties *)

(** The entry a subscribing call creates. *)
Definition entry_of (c : Call) : option Handler :=
  match c with
  | call_on mode activity listener =>
      Some {| Handler.mode := mode; Handler.activity := Some activity;
              Handler.listener := listener; Handler.once := false |}
  | call_once mode activity listener =>
      Some {| Handler.mode := mode; Handler.activity := Some activity;
              Handler.listener := listener; Handler.once := true |}
  | call_onAny mode listener =>
      Some {| Handler.mode := mode; Handler.activity := None;
              Handler.listener := listener; Handler.once := false |}
  | call_onceAny mode listener =>
      Some {| Handler.mode := mode; Handler.activity := None;
              Handler.listener := listener; Handler.once := true |}
  | call_off _ _ _ => None
  end.

(** The entries registered by the client calls of a run, in call order. *)
Fixpoint registrations (ops : list Op) : list Handler :=
  match ops with
  | [] => []
  | op_client c :: ops' => option_list (entry_of c) ++ registrations ops'
  | op_dispatch _ _ _ :: ops' => registrations ops'
  end.

(** The handlers whose listeners were called, in call order. *)
Fixpoint invoked (evs : list Effect) : list Handler :=
  match evs with
  | [] => []
  | Invoked h _ :: evs' => h :: invoked evs'
  | ConsoleError _ _ :: evs' => invoked evs'
  end.

(** How many entries of a list are equal to [h]. *)
Definition occurrences (h : Handler) (hs : list Handler) : nat :=
  length (filter (λ h', h' = h) hs).

(** The effects a computation adds to the trace. *)
Definition effects_of {A} (m : Js A) (w : World) : list Effect :=
  drop (length (trace w)) (trace (exec m w)).

(** The entries a dispatch carries over to the rebuilt list: all but the
    matching one-shot entries. *)
Definition survives (modeFilter : gset EventMode) (activityName : string)
    (h : Handler) : Prop :=
  ¬ (ActivityEvents.matches modeFilter activityName h ∧ Handler.once h).

Global Instance survives_dec modeFilter activityName h :
  Decision (survives modeFilter activityName h).
Proof. unfold survives. apply _. Defined.

(** The effects of one dispatch over a snapshot: entry by entry, nothing for
    an entry that does not match, the call for one that matches, followed by
    the report on the console when the call throws. *)
Inductive cycle_effects
    (behaviour : Listener → EventArgType → World → Body)
    (modeFilter : gset EventMode) (activityName : string)
    (args : EventArgType) : list Handler → list Effect → Prop :=
| cycle_done :
    cycle_effects behaviour modeFilter activityName args [] []
| cycle_skip h hs evs :
    ¬ ActivityEvents.matches modeFilter activityName h →
    cycle_effects behaviour modeFilter activityName args hs evs →
    cycle_effects behaviour modeFilter activityName args (h :: hs) evs
| cycle_returned h hs evs w :
    ActivityEvents.matches modeFilter activityName h →
    throws (behaviour (Handler.listener h) args w) = None →
    cycle_effects behaviour modeFilter activityName args hs evs →
    cycle_effects behaviour modeFilter activityName args (h :: hs)
      (Invoked h args :: evs)
| cycle_thrown h hs evs w e :
    ActivityEvents.matches modeFilter activityName h →
    throws (behaviour (Handler.listener h) args w) = Some e →
    cycle_effects behaviour modeFilter activityName args hs evs →
    cycle_effects behaviour modeFilter activityName args (h :: hs)
      (Invoked h args :: ConsoleError (ActivityEvents.error_message h) e
       :: evs).

(** The entries a call of [off] is aimed at: those with the given mode and
    activity and, when a listener is given, with that listener. *)
Definition targeted (mode : EventMode) (activity : option string)
    (listener : option Listener) (h : Handler) : Prop :=
  Handler.mode h = mode
  ∧ Handler.activity h = activity
  ∧ match listener with
    | None => True
    | Some l => Handler.listener h = l
    end.

Global Instance targeted_dec mode activity listener h :
  Decision (targeted mode activity listener h).
Proof. unfold targeted. destruct listener; apply _. Defined.

(** A computation is rejected when it throws and leaves the world as it
    was. *)
Definition rejected {A} (m : Js A) (w : World) : Prop :=
  ∃ e, m w = (Throw e, w).


(** ** The worlds of a dispatch, call by call

    To say what a listener did at one particular call, the world in which
    that call was made has to be named. *)

(** The world in which the listener of [h] runs: [w] with the call
    recorded. *)
Definition at_call (w : World) (h : Handler) (args : EventArgType) : World :=
  {| _handlers := _handlers w; trace := trace w ++ [Invoked h args] |}.

(** The value the listener of [h] throws when it is called in [w], if it
    throws. *)
Definition thrown (behaviour : Listener → EventArgType → World → Body)
    (w : World) (h : Handler) (args : EventArgType) : option Error :=
  throws (behaviour (Handler.listener h) args (at_call w h args)).

(** The world the listener of [h], called in [w], leaves to the loop: the
    call recorded and the listener's method calls made. *)
Definition after_call (behaviour : Listener → EventArgType → World → Body)
    (w : World) (h : Handler) (args : EventArgType) : World :=
  exec
    (for_of (calls (behaviour (Handler.listener h) args (at_call w h args)))
       (λ c _, ActivityEvents.perform c) tt)
    (at_call w h args).

(** [w] with one more line on the console. *)
Definition logged (w : World) (message : string) (e : Error) : World :=
  {| _handlers := _handlers w;
     trace := trace w ++ [ConsoleError message e] |}.

(** The world the loop of a dispatch is in when, started in [w], it has had
    the effects [evs]: every call made, every report written. *)
Fixpoint world_after (behaviour : Listener → EventArgType → World → Body)
    (evs : list Effect) (w : World) : World :=
  match evs with
  | [] => w
  | Invoked h args :: evs' =>
      world_after behaviour evs' (after_call behaviour w h args)
  | ConsoleError message e :: evs' =>
      world_after behaviour evs' (logged w message e)
  end.

(** The effects of the loop of a dispatch started in [w], entry by entry,
    with the world of every call: an entry that does not match has no
    effect; one that matches is called in the world the loop is in, and
    the report follows exactly when the listener throws in that call, with
    the value it throws. *)
Inductive exact_cycle
    (behaviour : Listener → EventArgType → World → Body)
    (modeFilter : gset EventMode) (activityName : string)
    (args : EventArgType) : list Handler → World → list Effect → Prop :=
| exact_done w :
    exact_cycle behaviour modeFilter activityName args [] w []
| exact_skip h hs w evs :
    ¬ ActivityEvents.matches modeFilter activityName h →
    exact_cycle behaviour modeFilter activityName args hs w evs →
    exact_cycle behaviour modeFilter activityName args (h :: hs) w evs
| exact_returned h hs w evs :
    ActivityEvents.matches modeFilter activityName h →
    thrown behaviour w h args = None →
    exact_cycle behaviour modeFilter activityName args hs
      (after_call behaviour w h args) evs →
    exact_cycle behaviour modeFilter activityName args (h :: hs) w
      (Invoked h args :: evs)
| exact_thrown h hs w evs e :
    ActivityEvents.matches modeFilter activityName h →
    thrown behaviour w h args = Some e →
    exact_cycle behaviour modeFilter activityName args hs
      (logged (after_call behaviour w h args)
         (ActivityEvents.error_message h) e) evs →
    exact_cycle behaviour modeFilter activityName args (h :: hs) w
      (Invoked h args :: ConsoleError (ActivityEvents.error_message h) e
       :: evs).

(** ** Dispatches caused by listeners

    A listener can also cause a dispatch while it runs: when it has the host
    deliver a message, the registered handler calls [emit] again before the
    outer call of [emit] has returned. [Script] describes such listeners:
    besides the method calls of a [Body] it can hold dispatches. The nested
    call of [emit] runs the same code on the same emitter; [emit_with] is
    that code with the nested dispatch as a parameter, and [emit_reentrant]
    ties the knot. The call stack is finite: at depth 0 a nested dispatch
    throws, as a call does in JavaScript when the stack is exhausted. *)

Inductive Action :=
| act_call (c : Call)
| act_dispatch (modeFilter : gset EventMode) (activityName : string)
    (args : EventArgType).

Record Script := {
  actions : list Action;
  raises : option Error
}.

(** The script of a listener that causes no dispatch. *)
Definition script_of (body : Body) : Script :=
  {| actions := act_call <$> calls body; raises := throws body |}.

Module Reentrant.

Section Emit.

Variable script : Listener → EventArgType → World → Script.

Definition act (nested : HandlerRunner) (a : Action) : Js unit :=
  match a with
  | act_call c => ActivityEvents.perform c
  | act_dispatch modeFilter activityName args =>
      nested modeFilter activityName args
  end.

(** [handler.listener(...args)] *)
Definition call_listener (nested : HandlerRunner) (handler : Handler)
    (args : EventArgType) : Js unit :=
  observe (Invoked handler args);;
  s ← (λ w, (Normal (script (Handler.listener handler) args w), w));
  for_of (actions s) (λ a _, act nested a) tt;;
  match raises s with
  | Some e => throw e
  | None => mret tt
  end.

Definition emit_body (nested : HandlerRunner) (modeFilter : gset EventMode)
    (activityName : string) (args : EventArgType) (handler : Handler)
    (nHandlers : list Handler) : Js (list Handler) :=
  if ActivityEvents.matches modeFilter activityName handler then
    try_catch (call_listener nested handler args)
      (λ e, observe (ConsoleError (ActivityEvents.error_message handler) e));;
    if negb (Handler.once handler)
    then mret (nHandlers ++ [handler])
    else mret nHandlers
  else mret (nHandlers ++ [handler]).

Definition emit_with (nested : HandlerRunner) (modeFilter : gset EventMode)
    (activityName : string) (args : EventArgType) : Js unit :=
  cpListeners ← get_handlers;
  nHandlers ←
    for_of cpListeners (emit_body nested modeFilter activityName args) [];
  set_handlers nHandlers.

Definition stack_overflow : Error :=
  "RangeError: Maximum call stack size exceeded".

(** [emit] when at most [depth] dispatches can be nested in it. *)
Fixpoint emit (depth : nat) : HandlerRunner :=
  emit_with
    (match depth with
     | 0 => λ _ _ _, throw stack_overflow
     | S depth' => emit depth'
     end).

End Emit.

End Reentrant.

(** ** Sample emitters and listeners *)

Module Examples.

(** An emitter as the constructor leaves it. *)
Definition fresh : World := {| _handlers := []; trace := [] |}.

Definition alice : Character := {| MemberNumber := 1 |}.
Definition player : Character := {| MemberNumber := 2 |}.
Definition kiss : ActivityInfo :=
  {| SourceCharacter := 1; TargetCharacter := 2; ActivityName := "Kiss" |}.
Definition kiss_args : EventArgType := (alice, player, kiss).

(** Listeners that do nothing. *)
Definition quiet : Listener → EventArgType → World → Body :=
  λ _ _ _, {| calls := []; throws := None |}.

(** Listener 1 throws; the others do nothing. *)
Definition faulty : Listener → EventArgType → World → Body :=
  λ l _ _,
    match l with
    | 1 => {| calls := []; throws := Some "boom" |}
    | _ => {| calls := []; throws := None |}
    end.

(** Listener 1 subscribes listener 2 to the activity it is called for. *)
Definition subscriber : Listener → EventArgType → World → Body :=
  λ l _ _,
    match l with
    | 1 => {| calls := [call_on "AnyInvolved" "Kiss" 2]; throws := None |}
    | _ => {| calls := []; throws := None |}
    end.

(** Listener 1 unsubscribes listener 2, which comes after it, and then
    itself. *)
Definition unsubscriber : Listener → EventArgType → World → Body :=
  λ l _ _,
    match l with
    | 1 => {| calls := [call_off "AnyInvolved" (Some "Kiss") (Some 2);
                        call_off "AnyInvolved" None (Some 1)];
              throws := None |}
    | _ => {| calls := []; throws := None |}
    end.

Definition any_1 : Handler :=
  {| Handler.mode := "AnyInvolved"; Handler.activity := None;
     Handler.listener := 1; Handler.once := false |}.
Definition kiss_2 : Handler :=
  {| Handler.mode := "AnyInvolved"; Handler.activity := Some "Kiss";
     Handler.listener := 2; Handler.once := false |}.
Definition once_kiss_3 : Handler :=
  {| Handler.mode := "SelfOnSelf"; Handler.activity := Some "Kiss";
     Handler.listener := 3; Handler.once := true |}.

(** Listener 1 throws a value that depends on when it is called: one value
    when its call is the first effect of the trace, another otherwise. *)
Definition moody : Listener → EventArgType → World → Body :=
  λ l _ w,
    match l with
    | 1 => {| calls := [];
              throws := Some (if length (trace w) =? 1
                              then "first" else "later") |}
    | _ => {| calls := []; throws := None |}
    end.

Definition once_kiss_any_3 : Handler :=
  {| Handler.mode := "AnyInvolved"; Handler.activity := Some "Kiss";
     Handler.listener := 3; Handler.once := true |}.

(** Listener 1, the first time it is called, has the host deliver a kiss,
    which the registered handler dispatches before the call returns. *)
Definition redispatcher : Listener → EventArgType → World → Script :=
  λ l _ w,
    match l with
    | 1 => {| actions :=
                if length (trace w) =? 1
                then [act_dispatch {[ "AnyInvolved" ]} "Kiss" kiss_args]
                else [];
              raises := None |}
    | _ => {| actions := []; raises := None |}
    end.

End Examples.

(** * Properties *)

Import ActivityEvents.

Ltac js_unfold :=
  unfold exec, completion, effects_of, push, get_handlers, set_handlers,
    observe, throw, try_catch, mbind, Js_bind, mret, Js_ret in *;
  simpl in *.

(** ** Subscription methods *)

Lemma world_eta (w : World) :
  {| _handlers := _handlers w; trace := trace w |} = w.
Proof. by destruct w. Qed.

(** A subscribing call returns and appends its entry; the trace is left
    alone. *)
Lemma perform_subscribe c h w :
  entry_of c = Some h →
  perform c w =
    (Normal tt, {| _handlers := _handlers w ++ [h]; trace := trace w |}).
Proof. destruct c; intros [= <-]; reflexivity. Qed.

(** Counting the entries equal to a given one. *)
Lemma occurrences_nil h : occurrences h [] = 0.
Proof. reflexivity. Qed.

Lemma occurrences_cons h h' hs :
  occurrences h (h' :: hs) =
    (if decide (h' = h) then 1 else 0) + occurrences h hs.
Proof.
  unfold occurrences. rewrite filter_cons. by destruct (decide (h' = h)).
Qed.

Lemma occurrences_app h hs hs' :
  occurrences h (hs ++ hs') = occurrences h hs + occurrences h hs'.
Proof. unfold occurrences. by rewrite filter_app, length_app. Qed.

Lemma occurrences_sublist h hs hs' :
  hs `sublist_of` hs' → occurrences h hs ≤ occurrences h hs'.
Proof.
  induction 1 as [|x l1 l2 _ IH|x l1 l2 _ IH];
    rewrite ?occurrences_cons; lia.
Qed.

Lemma occurrences_zero h hs : occurrences h hs = 0 ↔ h ∉ hs.
Proof.
  induction hs as [|h' hs IH].
  { rewrite occurrences_nil. split; [intros _; apply not_elem_of_nil | done]. }
  rewrite occurrences_cons, not_elem_of_cons.
  destruct (decide (h' = h)) as [->|Hne]; simpl.
  - split; [lia | tauto].
  - rewrite IH. split; [by split | tauto].
Qed.

(** A call of [off] returns and leaves a sublist of the handlers. *)
Lemma perform_off mode activity listener w :
  ∃ hs, hs `sublist_of` _handlers w
        ∧ perform (call_off mode activity listener) w =
            (Normal tt, {| _handlers := hs; trace := trace w |}).
Proof.
  destruct listener as [l|]; (eexists; split; [|reflexivity]);
    apply sublist_filter.
Qed.

(** Every public method returns normally and leaves the trace alone. *)
Lemma perform_returns c w :
  ∃ hs, perform c w = (Normal tt, {| _handlers := hs; trace := trace w |}).
Proof.
  destruct (entry_of c) as [h|] eqn:E.
  - eexists. by apply perform_subscribe.
  - destruct c; try discriminate.
    destruct (perform_off mode activity listener w) as (hs & _ & ->). eauto.
Qed.

Lemma calls_return cs : ∀ w,
  ∃ hs, for_of cs (λ c _, perform c) tt w =
          (Normal tt, {| _handlers := hs; trace := trace w |}).
Proof.
  induction cs as [|c cs IH]; intros w; simpl.
  - exists (_handlers w). by rewrite world_eta.
  - js_unfold. destruct (perform_returns c w) as [hs ->].
    destruct (IH {| _handlers := hs; trace := trace w |}) as [hs' ->].
    by exists hs'.
Qed.

(** ** One dispatch *)

Section Dispatch.

Variable behaviour : Listener → EventArgType → World → Body.
Variable modeFilter : gset EventMode.
Variable activityName : string.
Variable args : EventArgType.

Lemma survives_spec h :
  survives modeFilter activityName h ↔
  matches modeFilter activityName h = false ∨ Handler.once h = false.
Proof.
  unfold survives.
  destruct (matches modeFilter activityName h), (Handler.once h);
    simpl; intuition congruence.
Qed.

(** Calling a listener records the call, runs the listener's method calls,
    which touch the handlers only, and ends as the listener ends. *)
Lemma call_listener_run h w :
  ∃ hs w1,
    call_listener behaviour h args w =
      (match throws (behaviour (Handler.listener h) args w1) with
       | Some e => Throw e
       | None => Normal tt
       end,
       {| _handlers := hs; trace := trace w ++ [Invoked h args] |}).
Proof.
  unfold call_listener. js_unfold.
  set (w1 := {| _handlers := _handlers w;
                trace := trace w ++ [Invoked h args] |}).
  destruct (calls_return (calls (behaviour (Handler.listener h) args w1)) w1)
    as [hs ->].
  exists hs, w1. by destruct (throws _).
Qed.

(** The guarded call: whatever the listener does, control comes back
    normally; a thrown value is reported on the console. *)
Lemma guarded_call_run h w :
  ∃ hs w1,
    try_catch (call_listener behaviour h args)
      (λ e, observe (ConsoleError (error_message h) e)) w =
      (Normal tt,
       {| _handlers := hs;
          trace := trace w ++ Invoked h args ::
            match throws (behaviour (Handler.listener h) args w1) with
            | Some e => [ConsoleError (error_message h) e]
            | None => []
            end |}).
Proof.
  destruct (call_listener_run h w) as (hs & w1 & E).
  exists hs, w1. unfold try_catch. rewrite E.
  destruct (throws _); js_unfold; by rewrite <- ?app_assoc.
Qed.

(** The loop of [emit]: it always runs to its end, rebuilds the surviving
    entries of the snapshot behind what was already rebuilt, and adds the
    effects of a cycle to the trace. *)
Lemma emit_loop_run cp : ∀ acc w,
  ∃ hs evs,
    for_of cp (emit_body behaviour modeFilter activityName args) acc w =
      (Normal (acc ++ filter (survives modeFilter activityName) cp),
       {| _handlers := hs; trace := trace w ++ evs |})
    ∧ cycle_effects behaviour modeFilter activityName args cp evs.
Proof.
  induction cp as [|h cp IH]; intros acc w.
  - exists (_handlers w), []. simpl. rewrite !app_nil_r, world_eta.
    split; [done | constructor].
  - simpl. rewrite filter_cons.
    destruct (decide (survives modeFilter activityName h)) as [Hs|Hs];
      rewrite survives_spec in Hs;
      unfold mbind, Js_bind, emit_body at 1;
      destruct (matches modeFilter activityName h) eqn:Hm;
      destruct (Handler.once h) eqn:Ho;
      try (exfalso; destruct Hs; discriminate);
      try (exfalso; apply Hs; by auto).
    + destruct (guarded_call_run h w) as (hs1 & w1 & E).
      unfold mbind, Js_bind. rewrite E. simpl.
      edestruct (IH (acc ++ [h])) as (hs & evs & -> & Hc). simpl.
      eexists hs, _. rewrite <- !app_assoc. split; [reflexivity|].
      destruct (throws _) eqn:Ht; simpl.
      * eapply cycle_thrown; eauto; by rewrite Hm.
      * eapply cycle_returned; eauto; by rewrite Hm.
    + simpl. edestruct (IH (acc ++ [h]) w) as (hs & evs & -> & Hc).
      exists hs, evs. rewrite <- app_assoc. split; [done|].
      apply cycle_skip; [rewrite Hm; by intros [] | done].
    + simpl. edestruct (IH (acc ++ [h]) w) as (hs & evs & -> & Hc).
      exists hs, evs. rewrite <- app_assoc. split; [done|].
      apply cycle_skip; [rewrite Hm; by intros [] | done].
    + destruct (guarded_call_run h w) as (hs1 & w1 & E).
      unfold mbind, Js_bind. rewrite E. simpl.
      edestruct (IH acc) as (hs & evs & -> & Hc). simpl.
      eexists hs, _. rewrite <- app_assoc. split; [reflexivity|].
      destruct (throws _) eqn:Ht; simpl.
      * eapply cycle_thrown; eauto; by rewrite Hm.
      * eapply cycle_returned; eauto; by rewrite Hm.
Qed.

(** [emit] as a whole. *)
Lemma emit_run w :
  ∃ evs,
    emit behaviour modeFilter activityName args w =
      (Normal tt,
       {| _handlers := filter (survives modeFilter activityName) (_handlers w);
          trace := trace w ++ evs |})
    ∧ cycle_effects behaviour modeFilter activityName args (_handlers w) evs.
Proof.
  unfold emit. js_unfold.
  destruct (emit_loop_run (_handlers w) [] w) as (hs & evs & -> & Hc).
  by exists evs.
Qed.

End Dispatch.

(** ** What the effects of a cycle contain *)

Section Cycle.

Variable behaviour : Listener → EventArgType → World → Body.
Variable modeFilter : gset EventMode.
Variable activityName : string.
Variable args : EventArgType.

Local Abbreviation cycle := (cycle_effects behaviour modeFilter activityName args).

(** The listeners called are those of the matching entries, in the order of
    the snapshot. *)
Lemma cycle_invoked hs evs :
  cycle hs evs → invoked evs = filter (matches modeFilter activityName) hs.
Proof.
  induction 1 as [|h hs evs Hm _ IH|h hs evs w Hm _ _ IH|h hs evs w e Hm _ _ IH];
    [done|..]; rewrite filter_cons; destruct (decide _); try done;
    simpl; by rewrite IH.
Qed.

(** Every call of a cycle passes the arguments of the dispatch. *)
Lemma cycle_invoked_elem hs evs h args' :
  cycle hs evs →
  Invoked h args' ∈ evs ↔
  args' = args ∧ h ∈ hs ∧ matches modeFilter activityName h.
Proof.
  induction 1 as [|h0 hs evs Hm _ IH|h0 hs evs w Hm _ _ IH
                  |h0 hs evs w e Hm _ _ IH].
  - rewrite elem_of_nil. split; [done|]. intros (_ & []%elem_of_nil & _).
  - rewrite IH, elem_of_cons. split; [tauto|].
    intros (-> & [->|Hin] & Hh); tauto.
  - rewrite !elem_of_cons, IH. split.
    + intros [[= -> ->]|(-> & ? & ?)]; tauto.
    + intros (-> & [->|Hin] & Hh); tauto.
  - rewrite !elem_of_cons, IH. split.
    + intros [[= -> ->]|[[=]|(-> & ? & ?)]]; tauto.
    + intros (-> & [->|Hin] & Hh); tauto.
Qed.

(** A matching entry whose listener throws [e] whenever it is called is
    reported on the console with its own message. *)
Lemma cycle_reports hs evs h e :
  cycle hs evs →
  h ∈ hs → matches modeFilter activityName h →
  (∀ w, throws (behaviour (Handler.listener h) args w) = Some e) →
  ConsoleError (error_message h) e ∈ evs.
Proof.
  intros Hc Hin Hm Hthrows.
  induction Hc as [|h0 hs evs Hm0 _ IH|h0 hs evs w Hm0 Ht _ IH
                   |h0 hs evs w e0 Hm0 Ht _ IH].
  - by apply elem_of_nil in Hin.
  - apply elem_of_cons in Hin as [->|Hin]; [done | by apply IH].
  - apply elem_of_cons in Hin as [->|Hin].
    + rewrite Hthrows in Ht. discriminate.
    + apply elem_of_cons. right. by apply IH.
  - rewrite !elem_of_cons.
    apply elem_of_cons in Hin as [->|Hin].
    + rewrite Hthrows in Ht. injection Ht as ->. tauto.
    + right. right. by apply IH.
Qed.

(** The report of a failure comes right after the call that failed. *)
Lemma cycle_report_follows hs evs message e :
  cycle hs evs →
  ConsoleError message e ∈ evs →
  ∃ h pre post,
    evs = pre ++ Invoked h args :: ConsoleError message e :: post
    ∧ message = error_message h ∧ h ∈ hs.
Proof.
  induction 1 as [|h0 hs evs Hm _ IH|h0 hs evs w Hm _ _ IH
                  |h0 hs evs w e0 Hm _ _ IH]; intros Hin.
  - by apply elem_of_nil in Hin.
  - destruct (IH Hin) as (h & pre & post & -> & -> & Hh).
    exists h, pre, post. split_and!; [done..|]. by apply elem_of_cons; right.
  - apply elem_of_cons in Hin as [[=]|Hin].
    destruct (IH Hin) as (h & pre & post & -> & -> & Hh).
    exists h, (Invoked h0 args :: pre), post.
    split_and!; [done..|]. by apply elem_of_cons; right.
  - apply elem_of_cons in Hin as [[=]|Hin].
    apply elem_of_cons in Hin as [[= -> ->]|Hin].
    + exists h0, [], evs. split_and!; [done..|]. by apply elem_of_cons; left.
    + destruct (IH Hin) as (h & pre & post & -> & -> & Hh).
      exists h, (Invoked h0 args :: ConsoleError (error_message h0) e0 :: pre),
        post.
      split_and!; [done..|]. by apply elem_of_cons; right.
Qed.

(** [emit] returns normally, whatever the listeners do. *)
Lemma emit_returns w :
  completion (emit behaviour modeFilter activityName args) w = Normal tt.
Proof.
  destruct (emit_run behaviour modeFilter activityName args w) as (evs & E & _).
  unfold completion. by rewrite E.
Qed.

(** The handlers after [emit] are the surviving entries of the snapshot. *)
Lemma emit_handlers w :
  _handlers (exec (emit behaviour modeFilter activityName args) w) =
  filter (survives modeFilter activityName) (_handlers w).
Proof.
  destruct (emit_run behaviour modeFilter activityName args w) as (evs & E & _).
  unfold exec. by rewrite E.
Qed.

(** The effects [emit] adds are those of a cycle over the snapshot. *)
Lemma emit_effects w :
  cycle (_handlers w)
    (effects_of (emit behaviour modeFilter activityName args) w).
Proof.
  destruct (emit_run behaviour modeFilter activityName args w) as (evs & E & Hc).
  unfold effects_of, exec. rewrite E. simpl. by rewrite drop_app_length.
Qed.

End Cycle.

(** ** Runs *)

Lemma invoked_app evs evs' : invoked (evs ++ evs') = invoked evs ++ invoked evs'.
Proof.
  induction evs as [|[h a|m e] evs IH]; simpl; by rewrite ?IH.
Qed.

Lemma occurrences_filter (P : Handler → Prop) `{!∀ h, Decision (P h)} h hs :
  occurrences h (filter P hs) =
  if decide (P h) then occurrences h hs else 0.
Proof.
  induction hs as [|h' hs IH].
  - by destruct (decide (P h)).
  - rewrite filter_cons. destruct (decide (P h')) as [Hp|Hp];
      rewrite ?occurrences_cons, IH;
      destruct (decide (P h)) as [Hq|Hq]; try done;
      destruct (decide (h' = h)) as [->|Hne]; done.
Qed.

Section Runs.

Variable behaviour : Listener → EventArgType → World → Body.

(** One step of a run returns normally, extends the trace, keeps the
    handlers in registration order, and does not call a one-shot entry more
    often than the step removes it. *)
Lemma run_op_run o w :
  ∃ hs evs,
    run_op behaviour o w =
      (Normal tt, {| _handlers := hs; trace := trace w ++ evs |})
    ∧ hs `sublist_of` _handlers w ++ registrations [o]
    ∧ ∀ h, Handler.once h →
        occurrences h (invoked evs) + occurrences h hs
        ≤ occurrences h (_handlers w ++ registrations [o]).
Proof.
  destruct o as [c|modeFilter activityName args]; simpl.
  - destruct (entry_of c) as [h|] eqn:E.
    + exists (_handlers w ++ [h]), [].
      rewrite (perform_subscribe c h w E), !app_nil_r. by split_and!.
    + destruct c; try discriminate.
      destruct (perform_off mode activity listener w) as (hs & Hsub & ->).
      exists hs, []. rewrite !app_nil_r. split_and!; [done..|].
      intros h _. simpl. by apply occurrences_sublist.
  - destruct (emit_run behaviour modeFilter activityName args w)
      as (evs & -> & Hc).
    exists (filter (survives modeFilter activityName) (_handlers w)), evs.
    rewrite !app_nil_r. split_and!; [done | apply sublist_filter |].
    intros h Ho. rewrite (cycle_invoked _ _ _ _ _ _ Hc), !occurrences_filter.
    destruct (decide (survives modeFilter activityName h)) as [Hs|Hs];
      destruct (decide (matches modeFilter activityName h)) as [Hm|Hm];
      try lia.
    exfalso. apply Hs. by split.
Qed.

Lemma run_run ops : ∀ w,
  ∃ hs evs,
    run behaviour ops w =
      (Normal tt, {| _handlers := hs; trace := trace w ++ evs |})
    ∧ hs `sublist_of` _handlers w ++ registrations ops
    ∧ ∀ h, Handler.once h →
        occurrences h (invoked evs) + occurrences h hs
        ≤ occurrences h (_handlers w ++ registrations ops).
Proof.
  induction ops as [|o ops IH]; intros w.
  - exists (_handlers w), []. unfold run. simpl.
    rewrite !app_nil_r, world_eta. split_and!; [done..|]. intros h _. simpl. lia.
  - destruct (run_op_run o w) as (hs1 & evs1 & E1 & Hsub1 & Hocc1).
    destruct (IH {| _handlers := hs1; trace := trace w ++ evs1 |})
      as (hs & evs & E & Hsub & Hocc).
    simpl in E, Hsub, Hocc.
    assert (Hreg : registrations (o :: ops) =
                   registrations [o] ++ registrations ops).
    { destruct o; simpl; by rewrite ?app_nil_r. }
    exists hs, (evs1 ++ evs). rewrite Hreg. unfold run in *. cbn [for_of].
    unfold mbind, Js_bind. rewrite E1, E, !app_assoc. split_and!; [done| |].
    + etrans; [exact Hsub|]. by apply sublist_app.
    + intros h Ho. specialize (Hocc1 h Ho). specialize (Hocc h Ho).
      rewrite invoked_app, !occurrences_app in *. lia.
Qed.

End Runs.

(** ** The guard of [emit], read as a proposition *)

Lemma matches_spec modeFilter activityName h :
  matches modeFilter activityName h ↔
  Handler.mode h ∈ modeFilter
  ∧ (Handler.activity h = None ∨ Handler.activity h = Some activityName).
Proof.
  unfold matches.
  rewrite andb_True, orb_True, !bool_decide_spec. intuition congruence.
Qed.

(** ** The message handler *)

(** The handler built for a runner calls the runner once, with the mode set
    of [Callback_mode], the name of the activity and the three arguments, and
    answers [false]; without activity information it only answers [false]. *)
Lemma Callback_dispatches {Data Metadata} Player version
    (pullActivityInfo :
       Data → Character → string → Metadata → option ActivityInfo)
    runner data sender msg metadata :
  Callback (makeChatRoomMsgHandler Player version pullActivityInfo runner)
    data sender msg metadata =
  match pullActivityInfo data sender msg metadata with
  | None => mret false
  | Some info =>
      runner (Callback_mode Player sender info) (ActivityName info)
        (sender, Player, info);;
      mret false
  end.
Proof. reflexivity. Qed.

(** The handler the constructor registers dispatches every parsed activity
    with the mode set of [Callback_mode] and always answers [false], whatever
    the listeners do. *)
Lemma registered_handler_answers_false {Data Metadata}
    (behaviour : Listener → EventArgType → World → Body)
    Player version
    (pullActivityInfo :
       Data → Character → string → Metadata → option ActivityInfo)
    data sender msg metadata w :
  Callback (registered_handler behaviour Player version pullActivityInfo)
    data sender msg metadata w =
  (Normal false,
   match pullActivityInfo data sender msg metadata with
   | None => w
   | Some info =>
       exec (emit behaviour (Callback_mode Player sender info)
               (ActivityName info) (sender, Player, info)) w
   end).
Proof.
  unfold registered_handler. rewrite Callback_dispatches.
  destruct (pullActivityInfo data sender msg metadata) as [info|]; [|done].
  unfold mbind, Js_bind, exec.
  destruct (emit_run behaviour (Callback_mode Player sender info)
              (ActivityName info) (sender, Player, info) w) as (evs & -> & _).
  reflexivity.
Qed.

(** C2. For an event whose sender is its source actor, the mode set the
    handler dispatches with is the one of the widening table: the SelfOnSelf
    row when source and target are both the observer, the OthersOnSelf row
    when only the target is, the SelfOnOthers row when only the source is,
    and AnyInvolved alone otherwise. *)
Theorem Callback_mode_widening_table
    (Player sender : Character) (info : ActivityInfo)
    (source target observer : Z) :
  MemberNumber sender = source →
  SourceCharacter info = source →
  TargetCharacter info = target →
  MemberNumber Player = observer →
  (source = observer ∧ target = observer →
   Callback_mode Player sender info =
     {[ "SelfOnSelf"; "AnyOnSelf"; "SelfInvolved"; "AnyInvolved" ]})
  ∧ (target = observer ∧ source ≠ observer →
     Callback_mode Player sender info =
       {[ "OthersOnSelf"; "AnyOnSelf"; "SelfInvolved"; "AnyInvolved" ]})
  ∧ (source = observer ∧ target ≠ observer →
     Callback_mode Player sender info =
       {[ "SelfOnOthers"; "SelfInvolved"; "AnyInvolved" ]})
  ∧ (source ≠ observer ∧ target ≠ observer →
     Callback_mode Player sender info = {[ "AnyInvolved" ]}).
Proof.
  intros Hsender Hsource Htarget Hobserver. unfold Callback_mode.
  rewrite Hsender, Hsource, Htarget, Hobserver.
  split_and!; intros [H1 H2]; repeat case_bool_decide;
    try congruence; reflexivity.
Qed.

Lemma Callback_mode_widening_table_witness :
  Callback_mode Examples.player Examples.player
    {| SourceCharacter := 2; TargetCharacter := 2; ActivityName := "Kiss" |} =
    {[ "SelfOnSelf"; "AnyOnSelf"; "SelfInvolved"; "AnyInvolved" ]}
  ∧ Callback_mode Examples.player Examples.alice Examples.kiss =
      {[ "OthersOnSelf"; "AnyOnSelf"; "SelfInvolved"; "AnyInvolved" ]}
  ∧ Callback_mode Examples.alice Examples.alice Examples.kiss =
      {[ "SelfOnOthers"; "SelfInvolved"; "AnyInvolved" ]}
  ∧ Callback_mode {| MemberNumber := 3 |} Examples.alice Examples.kiss =
      {[ "AnyInvolved" ]}.
Proof.
  split_and!.
  - destruct (Callback_mode_widening_table Examples.player Examples.player
                {| SourceCharacter := 2; TargetCharacter := 2;
                   ActivityName := "Kiss" |} 2 2 2
                eq_refl eq_refl eq_refl eq_refl) as (H & _).
    apply H. split; reflexivity.
  - destruct (Callback_mode_widening_table Examples.player Examples.alice
                Examples.kiss 1 2 2
                eq_refl eq_refl eq_refl eq_refl) as (_ & H & _).
    apply H. split; [reflexivity | lia].
  - destruct (Callback_mode_widening_table Examples.alice Examples.alice
                Examples.kiss 1 2 1
                eq_refl eq_refl eq_refl eq_refl) as (_ & _ & H & _).
    apply H. split; [reflexivity | lia].
  - destruct (Callback_mode_widening_table {| MemberNumber := 3 |}
                Examples.alice Examples.kiss 1 2 3
                eq_refl eq_refl eq_refl eq_refl) as (_ & _ & _ & H).
    apply H. split; lia.
Defined.

(** C10. The handler reads the source of an event in two places. When the
    target is the observer, SelfOnSelf or OthersOnSelf is chosen by the
    member number of the sender, whatever the record's SourceCharacter says;
    when the target is somebody else, SelfOnOthers or OthersOnOthers is chosen
    by the record's SourceCharacter, whatever the sender's member number is. *)
Theorem Callback_mode_two_sources
    (Player sender : Character) (info : ActivityInfo) :
  (TargetCharacter info = MemberNumber Player →
   Callback_mode Player sender info =
     if bool_decide (MemberNumber sender = MemberNumber Player)
     then modesFilters.SelfOnSelf else modesFilters.OthersOnSelf)
  ∧ (TargetCharacter info ≠ MemberNumber Player →
     Callback_mode Player sender info =
       if bool_decide (SourceCharacter info = MemberNumber Player)
       then modesFilters.SelfOnOthers else modesFilters.OthersOnOthers).
Proof.
  unfold Callback_mode.
  split; intros H; repeat case_bool_decide; try congruence; reflexivity.
Qed.

(** A message the observer sends about herself whose record names somebody
    else as the source is SelfOnSelf; a message the observer sends about
    somebody else whose record names a third party as the source is
    OthersOnOthers. *)
Lemma Callback_mode_two_sources_witness :
  Callback_mode Examples.player Examples.player
    {| SourceCharacter := 1; TargetCharacter := 2; ActivityName := "Kiss" |} =
    modesFilters.SelfOnSelf
  ∧ Callback_mode Examples.player Examples.player
      {| SourceCharacter := 1; TargetCharacter := 3; ActivityName := "Kiss" |} =
      modesFilters.OthersOnOthers.
Proof.
  split.
  - destruct (Callback_mode_two_sources Examples.player Examples.player
                {| SourceCharacter := 1; TargetCharacter := 2;
                   ActivityName := "Kiss" |}) as (H & _).
    apply H. reflexivity.
  - destruct (Callback_mode_two_sources Examples.player Examples.player
                {| SourceCharacter := 1; TargetCharacter := 3;
                   ActivityName := "Kiss" |}) as (_ & H).
    apply H. simpl. lia.
Defined.

(** ** Dispatch *)

(** C3. In a dispatch with mode set [modeFilter] and activity
    [activityName], the listener of an entry of the snapshot is called (with
    the arguments of the dispatch) exactly when the mode set has the entry's
    mode and the entry's activity is null or is [activityName]. In particular
    an entry with a null activity is called in every dispatch whose mode set
    has its mode, for any activity. *)
Theorem listener_called_iff_matches
    (behaviour : Listener → EventArgType → World → Body)
    (modeFilter : gset EventMode) (activityName : string)
    (args : EventArgType) (w : World) (h : Handler) :
  h ∈ _handlers w →
  (Invoked h args ∈ effects_of (emit behaviour modeFilter activityName args) w
   ↔ Handler.mode h ∈ modeFilter
     ∧ (Handler.activity h = None ∨ Handler.activity h = Some activityName))
  ∧ (Handler.activity h = None → Handler.mode h ∈ modeFilter →
     Invoked h args
       ∈ effects_of (emit behaviour modeFilter activityName args) w).
Proof.
  intros Hin.
  pose proof (emit_effects behaviour modeFilter activityName args w) as Hc.
  assert (Hiff :
    Invoked h args ∈ effects_of (emit behaviour modeFilter activityName args) w
    ↔ Handler.mode h ∈ modeFilter
      ∧ (Handler.activity h = None ∨ Handler.activity h = Some activityName)).
  { rewrite (cycle_invoked_elem _ _ _ _ _ _ h args Hc), matches_spec. tauto. }
  split; [exact Hiff|]. intros Hnull Hmode. apply Hiff. tauto.
Qed.

Lemma listener_called_iff_matches_witness :
  Invoked Examples.any_1 Examples.kiss_args
    ∈ effects_of
        (emit Examples.quiet {[ "AnyInvolved" ]} "Kiss" Examples.kiss_args)
        {| _handlers := [Examples.any_1; Examples.once_kiss_3]; trace := [] |}.
Proof.
  apply (listener_called_iff_matches Examples.quiet {[ "AnyInvolved" ]} "Kiss"
           Examples.kiss_args
           {| _handlers := [Examples.any_1; Examples.once_kiss_3];
              trace := [] |}
           Examples.any_1).
  - simpl. apply list_elem_of_here.
  - reflexivity.
  - simpl. apply elem_of_singleton. reflexivity.
Defined.

(** ** The effects of a dispatch, with the world of every call *)

Section ExactCycle.

Variable behaviour : Listener → EventArgType → World → Body.
Variable modeFilter : gset EventMode.
Variable activityName : string.
Variable args : EventArgType.

Local Abbreviation exact :=
  (exact_cycle behaviour modeFilter activityName args).

Lemma after_call_trace h w :
  trace (after_call behaviour w h args) = trace w ++ [Invoked h args].
Proof.
  unfold after_call, exec.
  destruct (calls_return
              (calls (behaviour (Handler.listener h) args (at_call w h args)))
              (at_call w h args)) as [hs ->].
  reflexivity.
Qed.

(** The call of a listener ends as the listener ends in the world of the
    call, and leaves the world the listener's method calls make. *)
Lemma call_listener_exact h w :
  call_listener behaviour h args w =
    (match thrown behaviour w h args with
     | Some e => Throw e
     | None => Normal tt
     end,
     after_call behaviour w h args).
Proof.
  unfold call_listener, thrown, after_call, exec. js_unfold.
  change {| _handlers := _handlers w; trace := trace w ++ [Invoked h args] |}
    with (at_call w h args).
  destruct (calls_return
              (calls (behaviour (Handler.listener h) args (at_call w h args)))
              (at_call w h args)) as [hs ->].
  simpl. by destruct (throws _).
Qed.

(** The guarded call reports exactly what the call threw. *)
Lemma guarded_call_exact h w :
  try_catch (call_listener behaviour h args)
    (λ e, observe (ConsoleError (error_message h) e)) w =
    (Normal tt,
     match thrown behaviour w h args with
     | Some e => logged (after_call behaviour w h args) (error_message h) e
     | None => after_call behaviour w h args
     end).
Proof.
  unfold try_catch. rewrite call_listener_exact.
  by destruct (thrown behaviour w h args).
Qed.

Lemma emit_loop_exact cp : ∀ acc w,
  ∃ hs evs,
    for_of cp (emit_body behaviour modeFilter activityName args) acc w =
      (Normal (acc ++ filter (survives modeFilter activityName) cp),
       {| _handlers := hs; trace := trace w ++ evs |})
    ∧ exact cp w evs.
Proof.
  induction cp as [|h cp IH]; intros acc w.
  - exists (_handlers w), []. simpl. rewrite !app_nil_r, world_eta.
    split; [done | constructor].
  - simpl. rewrite filter_cons.
    destruct (decide (survives modeFilter activityName h)) as [Hs|Hs];
      rewrite survives_spec in Hs;
      unfold mbind, Js_bind, emit_body at 1;
      destruct (matches modeFilter activityName h) eqn:Hm;
      destruct (Handler.once h) eqn:Ho;
      try (exfalso; destruct Hs; discriminate);
      try (exfalso; apply Hs; by auto);
      try (simpl; edestruct (IH (acc ++ [h]) w) as (hs & evs & -> & Hc);
           exists hs, evs; rewrite <- app_assoc; split; [done|];
           apply exact_skip; [rewrite Hm; by intros [] | done]).
    + unfold mbind, Js_bind. rewrite guarded_call_exact. simpl.
      destruct (thrown behaviour w h args) as [e|] eqn:Ht.
      * edestruct (IH (acc ++ [h])) as (hs & evs & -> & Hc).
        exists hs, (Invoked h args :: ConsoleError (error_message h) e :: evs).
        simpl. rewrite after_call_trace, <- !app_assoc.
        split; [done|]. apply exact_thrown; [by rewrite Hm | done..].
      * edestruct (IH (acc ++ [h])) as (hs & evs & -> & Hc).
        exists hs, (Invoked h args :: evs).
        rewrite after_call_trace, <- !app_assoc.
        split; [done|]. apply exact_returned; [by rewrite Hm | done..].
    + unfold mbind, Js_bind. rewrite guarded_call_exact. simpl.
      destruct (thrown behaviour w h args) as [e|] eqn:Ht.
      * edestruct (IH acc) as (hs & evs & -> & Hc).
        exists hs, (Invoked h args :: ConsoleError (error_message h) e :: evs).
        simpl. rewrite after_call_trace, <- !app_assoc.
        split; [done|]. apply exact_thrown; [by rewrite Hm | done..].
      * edestruct (IH acc) as (hs & evs & -> & Hc).
        exists hs, (Invoked h args :: evs).
        rewrite after_call_trace, <- !app_assoc.
        split; [done|]. apply exact_returned; [by rewrite Hm | done..].
Qed.

(** The effects [emit] adds are those of the loop started in the world
    [emit] was called in. *)
Lemma emit_exact w :
  exact (_handlers w) w
    (effects_of (emit behaviour modeFilter activityName args) w).
Proof.
  unfold effects_of, exec, emit. js_unfold.
  destruct (emit_loop_exact (_handlers w) [] w) as (hs & evs & -> & Hc).
  simpl. by rewrite drop_app_length.
Qed.

(** The loop never starts with a report. *)
Lemma exact_starts_with_call hs w evs message e evs' :
  exact hs w evs → evs ≠ ConsoleError message e :: evs'.
Proof. induction 1; [done | done | discriminate | discriminate]. Qed.

(** A call that throws is followed at once by its report, and a call that
    returns is not followed by a report. *)
Lemma exact_call_reported hs w evs :
  exact hs w evs →
  ∀ pre h args' post,
    evs = pre ++ Invoked h args' :: post →
    args' = args
    ∧ match thrown behaviour (world_after behaviour pre w) h args with
      | Some e => ∃ post', post = ConsoleError (error_message h) e :: post'
      | None => ∀ message e post', post ≠ ConsoleError message e :: post'
      end.
Proof.
  induction 1 as [w|h0 hs w evs Hm _ IH|h0 hs w evs Hm Ht Hc IH
                  |h0 hs w evs e0 Hm Ht Hc IH]; intros pre h args' post E.
  - by destruct pre.
  - by apply IH.
  - destruct pre as [|x pre]; simpl in E.
    + injection E as <- <- <-. split; [done|]. simpl. rewrite Ht.
      intros message e post'. by eapply exact_starts_with_call.
    + injection E as <- E. simpl. by apply IH.
  - destruct pre as [|x pre]; simpl in E.
    + injection E as <- <- <-. split; [done|]. simpl. rewrite Ht. eauto.
    + injection E as <- E. destruct pre as [|y pre]; simpl in E.
      * discriminate.
      * injection E as <- E. simpl. by apply IH.
Qed.

(** Every report follows at once the call of a matching entry that threw
    the reported value in that call, and carries the entry's message. *)
Lemma exact_report_origin hs w evs :
  exact hs w evs →
  ∀ pre message e post,
    evs = pre ++ ConsoleError message e :: post →
    ∃ pre' h,
      pre = pre' ++ [Invoked h args]
      ∧ h ∈ hs
      ∧ matches modeFilter activityName h
      ∧ message = error_message h
      ∧ thrown behaviour (world_after behaviour pre' w) h args = Some e.
Proof.
  induction 1 as [w|h0 hs w evs Hm _ IH|h0 hs w evs Hm Ht Hc IH
                  |h0 hs w evs e0 Hm Ht Hc IH]; intros pre message e post E.
  - by destruct pre.
  - destruct (IH _ _ _ _ E) as (pre' & h & -> & Hin & ? & ? & ?).
    exists pre', h. split_and!; try done. by right.
  - destruct pre as [|x pre]; simpl in E; [discriminate|].
    injection E as <- E.
    destruct (IH _ _ _ _ E) as (pre' & h & -> & Hin & ? & ? & ?).
    exists (Invoked h0 args :: pre'), h. split_and!; try done. by right.
  - destruct pre as [|x pre]; simpl in E; [discriminate|].
    injection E as <- E. destruct pre as [|y pre]; simpl in E.
    + injection E as <- <- <-. exists [], h0.
      split_and!; try done. by left.
    + injection E as <- E.
      destruct (IH _ _ _ _ E) as (pre' & h & -> & Hin & ? & ? & ?).
      exists (Invoked h0 args :: ConsoleError (error_message h0) e0 :: pre'), h.
      split_and!; try done. by right.
Qed.

End ExactCycle.

(** C4. Whatever the listeners do, [emit] returns normally; the handlers are
    rebuilt as in any other cycle; the listeners called are those of all
    matching entries, in registration order, so those after a listener that
    threw are still called; and whenever a call made in the cycle throws, the
    very next effect is the report on the console, with a message that holds
    the entry's activity and mode, together with the value thrown in that
    call. In particular a matching entry whose listener always throws is
    reported. *)
Theorem listener_failure_is_contained
    (behaviour : Listener → EventArgType → World → Body)
    (modeFilter : gset EventMode) (activityName : string)
    (args : EventArgType) (w : World) :
  completion (emit behaviour modeFilter activityName args) w = Normal tt
  ∧ _handlers (exec (emit behaviour modeFilter activityName args) w) =
      filter (survives modeFilter activityName) (_handlers w)
  ∧ invoked (effects_of (emit behaviour modeFilter activityName args) w) =
      filter (matches modeFilter activityName) (_handlers w)
  ∧ (∀ pre h post e,
       effects_of (emit behaviour modeFilter activityName args) w
       = pre ++ Invoked h args :: post →
       throws
         (behaviour (Handler.listener h) args
            (at_call (world_after behaviour pre w) h args)) = Some e →
       ∃ post',
         post =
           ConsoleError
             ("Error in activity event listener for "
              +:+ default "null" (Handler.activity h)
              +:+ " (" +:+ Handler.mode h +:+ "):") e
           :: post')
  ∧ (∀ h e,
       h ∈ _handlers w →
       matches modeFilter activityName h →
       (∀ w', throws (behaviour (Handler.listener h) args w') = Some e) →
       ConsoleError
         ("Error in activity event listener for "
          +:+ default "null" (Handler.activity h)
          +:+ " (" +:+ Handler.mode h +:+ "):") e
         ∈ effects_of (emit behaviour modeFilter activityName args) w).
Proof.
  pose proof (emit_effects behaviour modeFilter activityName args w) as Hc.
  split_and!.
  - apply emit_returns.
  - apply emit_handlers.
  - by apply cycle_invoked in Hc.
  - intros pre h post e E Ht.
    destruct (exact_call_reported behaviour modeFilter activityName args
                _ _ _ (emit_exact behaviour modeFilter activityName args w)
                pre h args post E) as (_ & Hreport).
    unfold thrown in Hreport. by rewrite Ht in Hreport.
  - intros h e Hin Hm Hthrows.
    by apply (cycle_reports _ _ _ _ _ _ h e Hc).
Qed.

(** Listener 1 throws a value that depends on the world of the call;
    listener 2 is registered after it. Both are called, and the value
    thrown in the call is on the console right after the call. *)
Lemma listener_failure_is_contained_witness :
  completion
    (emit Examples.moody {[ "AnyInvolved" ]} "Kiss" Examples.kiss_args)
    {| _handlers := [Examples.any_1; Examples.kiss_2]; trace := [] |}
  = Normal tt
  ∧ invoked
      (effects_of
         (emit Examples.moody {[ "AnyInvolved" ]} "Kiss" Examples.kiss_args)
         {| _handlers := [Examples.any_1; Examples.kiss_2]; trace := [] |})
    = [Examples.any_1; Examples.kiss_2]
  ∧ (∃ post',
       [ConsoleError "Error in activity event listener for null (AnyInvolved):"
          "first";
        Invoked Examples.kiss_2 Examples.kiss_args]
       = ConsoleError
           "Error in activity event listener for null (AnyInvolved):" "first"
         :: post')
  ∧ ConsoleError "Error in activity event listener for null (AnyInvolved):"
      "boom"
    ∈ effects_of
        (emit Examples.faulty {[ "AnyInvolved" ]} "Kiss" Examples.kiss_args)
        {| _handlers := [Examples.any_1; Examples.kiss_2]; trace := [] |}.
Proof.
  destruct (listener_failure_is_contained Examples.moody {[ "AnyInvolved" ]}
              "Kiss" Examples.kiss_args
              {| _handlers := [Examples.any_1; Examples.kiss_2];
                 trace := [] |}) as (Hret & _ & Hinv & Hnext & _).
  destruct (listener_failure_is_contained Examples.faulty {[ "AnyInvolved" ]}
              "Kiss" Examples.kiss_args
              {| _handlers := [Examples.any_1; Examples.kiss_2];
                 trace := [] |}) as (_ & _ & _ & _ & Hlog).
  split_and!.
  - exact Hret.
  - rewrite Hinv. reflexivity.
  - apply (Hnext [] Examples.any_1
             [ConsoleError
                "Error in activity event listener for null (AnyInvolved):"
                "first";
              Invoked Examples.kiss_2 Examples.kiss_args] "first").
    + by vm_compute.
    + reflexivity.
  - apply (Hlog Examples.any_1 "boom").
    + apply list_elem_of_here.
    + reflexivity.
    + intros w'. reflexivity.
Defined.

(** One-shot entries when no listener causes a dispatch. After a dispatch
    no one-shot entry that matched it is among the handlers, and every entry
    that did not match, or is not one-shot, is there as many times as it was
    before. Over any run of dispatches and client calls in which the
    listeners only subscribe, unsubscribe and throw, the listener of a
    one-shot entry is called at most as many times as the entry was
    registered. *)
Theorem once_entry_removed_after_firing
    (behaviour : Listener → EventArgType → World → Body) :
  (∀ modeFilter activityName args w h,
     Handler.once h = true →
     matches modeFilter activityName h = true →
     h ∉ _handlers (exec (emit behaviour modeFilter activityName args) w))
  ∧ (∀ modeFilter activityName args w h,
       matches modeFilter activityName h = false ∨ Handler.once h = false →
       occurrences h
         (_handlers (exec (emit behaviour modeFilter activityName args) w))
       = occurrences h (_handlers w))
  ∧ (∀ ops w h,
       Handler.once h = true →
       occurrences h (invoked (effects_of (run behaviour ops) w))
       ≤ occurrences h (_handlers w ++ registrations ops)).
Proof.
  split_and!.
  - intros modeFilter activityName args w h Ho Hm.
    rewrite emit_handlers, list_elem_of_filter, survives_spec.
    intros [[?|?] _]; congruence.
  - intros modeFilter activityName args w h Hs.
    rewrite emit_handlers, occurrences_filter.
    destruct (decide _) as [|Hn]; [done|].
    by rewrite survives_spec in Hn.
  - intros ops w h Ho.
    destruct (run_run behaviour ops w) as (hs & evs & E & _ & Hocc).
    unfold effects_of, exec. rewrite E. simpl. rewrite drop_app_length.
    specialize (Hocc h). rewrite Ho in Hocc. specialize (Hocc I). lia.
Qed.

(** The one-shot entry for kisses is gone after a kiss, the other entry
    stays, and three dispatches call the one-shot listener at most once. *)
Lemma once_entry_removed_after_firing_witness :
  (Examples.once_kiss_3
     ∉ _handlers
         (exec (emit Examples.quiet {[ "SelfOnSelf" ]} "Kiss"
                  Examples.kiss_args)
            {| _handlers := [Examples.any_1; Examples.once_kiss_3];
               trace := [] |}))
  ∧ occurrences Examples.any_1
      (_handlers
         (exec (emit Examples.quiet {[ "SelfOnSelf" ]} "Kiss"
                  Examples.kiss_args)
            {| _handlers := [Examples.any_1; Examples.once_kiss_3];
               trace := [] |}))
    = 1
  ∧ occurrences Examples.once_kiss_3
      (invoked
         (effects_of
            (run Examples.quiet
               [op_dispatch {[ "SelfOnSelf" ]} "Slap" Examples.kiss_args;
                op_dispatch {[ "SelfOnSelf" ]} "Kiss" Examples.kiss_args;
                op_dispatch {[ "SelfOnSelf" ]} "Kiss" Examples.kiss_args])
            {| _handlers := [Examples.any_1; Examples.once_kiss_3];
               trace := [] |}))
    ≤ 1.
Proof.
  destruct (once_entry_removed_after_firing Examples.quiet)
    as (Hgone & Hstays & Hbound).
  split_and!.
  - apply Hgone; reflexivity.
  - rewrite Hstays; [reflexivity | right; reflexivity].
  - etrans; [apply Hbound; reflexivity | reflexivity].
Defined.

(** The scenario of a one-shot listener for kisses: a slap does not call it
    and leaves it registered, the first kiss calls it and removes it, the
    second kiss does not call it. *)
Example once_kiss_scenario :
  invoked
    (effects_of
       (ActivityEvents.once "SelfOnSelf" "Kiss" 3;;
        emit Examples.quiet {[ "SelfOnSelf" ]} "Slap" Examples.kiss_args)
       Examples.fresh) = []
  ∧ _handlers
      (exec
         (ActivityEvents.once "SelfOnSelf" "Kiss" 3;;
          emit Examples.quiet {[ "SelfOnSelf" ]} "Slap" Examples.kiss_args)
         Examples.fresh) = [Examples.once_kiss_3]
  ∧ effects_of
      (ActivityEvents.once "SelfOnSelf" "Kiss" 3;;
       emit Examples.quiet {[ "SelfOnSelf" ]} "Slap" Examples.kiss_args;;
       emit Examples.quiet {[ "SelfOnSelf" ]} "Kiss" Examples.kiss_args;;
       emit Examples.quiet {[ "SelfOnSelf" ]} "Kiss" Examples.kiss_args)
      Examples.fresh = [Invoked Examples.once_kiss_3 Examples.kiss_args]
  ∧ _handlers
      (exec
         (ActivityEvents.once "SelfOnSelf" "Kiss" 3;;
          emit Examples.quiet {[ "SelfOnSelf" ]} "Slap" Examples.kiss_args;;
          emit Examples.quiet {[ "SelfOnSelf" ]} "Kiss" Examples.kiss_args)
         Examples.fresh) = [].
Proof. split_and!; by vm_compute. Qed.

(** C9. A dispatch leaves the snapshot with the matching one-shot entries
    taken out and nothing moved; and over any run of subscriptions,
    unsubscriptions and dispatches the handlers are a subsequence of the
    entries in the order in which they were registered. *)
Theorem registration_order_is_kept
    (behaviour : Listener → EventArgType → World → Body) :
  (∀ modeFilter activityName args w,
     _handlers (exec (emit behaviour modeFilter activityName args) w) =
     filter (λ h, ¬ (matches modeFilter activityName h ∧ Handler.once h))
       (_handlers w))
  ∧ (∀ ops w,
       _handlers (exec (run behaviour ops) w)
         `sublist_of` _handlers w ++ registrations ops).
Proof.
  split.
  - intros. apply emit_handlers.
  - intros ops w.
    destruct (run_run behaviour ops w) as (hs & evs & E & Hsub & _).
    unfold exec. by rewrite E.
Qed.

(** ** Subscription *)

(** C7. A subscribing call appends its entry whatever the handlers already
    hold, so the same call made twice leaves two entries behind the earlier
    ones; a dispatch that matches the entry then calls the listeners of the
    earlier matching entries and, after them, the listener of each of the two
    entries. *)
Theorem duplicate_subscriptions_both_fire
    (behaviour : Listener → EventArgType → World → Body)
    (c : Call) (h : Handler) (w : World) :
  entry_of c = Some h →
  _handlers (exec (perform c) w) = _handlers w ++ [h]
  ∧ _handlers (exec (perform c;; perform c) w) = _handlers w ++ [h; h]
  ∧ ∀ modeFilter activityName args,
      matches modeFilter activityName h = true →
      invoked
        (effects_of (emit behaviour modeFilter activityName args)
           (exec (perform c;; perform c) w))
      = filter (matches modeFilter activityName) (_handlers w) ++ [h; h].
Proof.
  intros E.
  assert (E2 : exec (perform c;; perform c) w =
               {| _handlers := _handlers w ++ [h; h]; trace := trace w |}).
  { unfold exec, mbind, Js_bind.
    rewrite (perform_subscribe c h w E), (perform_subscribe c h _ E). simpl.
    by rewrite <- app_assoc. }
  split_and!.
  - unfold exec. by rewrite (perform_subscribe c h w E).
  - by rewrite E2.
  - intros modeFilter activityName args Hm. rewrite E2.
    rewrite (cycle_invoked _ _ _ _ _ _
               (emit_effects behaviour modeFilter activityName args _)).
    simpl. rewrite filter_app, !filter_cons, filter_nil.
    destruct (decide _) as [|Hn]; [done|]. by rewrite Hm in Hn.
Qed.

Lemma duplicate_subscriptions_both_fire_witness :
  _handlers
    (exec (perform (call_on "AnyInvolved" "Kiss" 2);;
           perform (call_on "AnyInvolved" "Kiss" 2))
       {| _handlers := [Examples.any_1]; trace := [] |})
  = [Examples.any_1; Examples.kiss_2; Examples.kiss_2]
  ∧ invoked
      (effects_of
         (emit Examples.quiet {[ "AnyInvolved" ]} "Kiss" Examples.kiss_args)
         (exec (perform (call_on "AnyInvolved" "Kiss" 2);;
                perform (call_on "AnyInvolved" "Kiss" 2))
            {| _handlers := [Examples.any_1]; trace := [] |}))
    = [Examples.any_1; Examples.kiss_2; Examples.kiss_2].
Proof.
  destruct (duplicate_subscriptions_both_fire Examples.quiet
              (call_on "AnyInvolved" "Kiss" 2) Examples.kiss_2
              {| _handlers := [Examples.any_1]; trace := [] |} eq_refl)
    as (_ & Htwice & Hfire).
  split.
  - rewrite Htwice. reflexivity.
  - rewrite (Hfire {[ "AnyInvolved" ]} "Kiss" Examples.kiss_args)
      by reflexivity.
    reflexivity.
Defined.

(** C8 as the specification words it does not hold: a call of [on] with a
    mode that is none of the six is not rejected; it returns normally and the
    entry is among the handlers. *)
Lemma unknown_mode_is_not_rejected :
  ("Sideways" ∉ ActivityTriggerMode)
  ∧ ¬ rejected (ActivityEvents.on "Sideways" "Kiss" 1) Examples.fresh
  ∧ completion (ActivityEvents.on "Sideways" "Kiss" 1) Examples.fresh
    = Normal tt
  ∧ _handlers (exec (ActivityEvents.on "Sideways" "Kiss" 1) Examples.fresh)
    = [ {| Handler.mode := "Sideways"; Handler.activity := Some "Kiss";
           Handler.listener := 1; Handler.once := false |} ].
Proof.
  split_and!; [|intros [e [=]]|reflexivity..].
  unfold ActivityTriggerMode.
  rewrite !not_elem_of_union, !not_elem_of_singleton.
  split_and!; discriminate.
Qed.

(** C8, as the code has it. The subscribing methods do not look at the
    mode: for every mode, one of the six or not, each of them returns
    normally and appends the entry with that mode. *)
Theorem subscribe_accepts_every_mode
    (mode : EventMode) (activity : string) (listener : Listener) (w : World) :
  ActivityEvents.on mode activity listener w =
    (Normal tt,
     {| _handlers := _handlers w ++
          [ {| Handler.mode := mode; Handler.activity := Some activity;
               Handler.listener := listener; Handler.once := false |} ];
        trace := trace w |})
  ∧ ActivityEvents.once mode activity listener w =
      (Normal tt,
       {| _handlers := _handlers w ++
            [ {| Handler.mode := mode; Handler.activity := Some activity;
                 Handler.listener := listener; Handler.once := true |} ];
          trace := trace w |})
  ∧ ActivityEvents.onAny mode listener w =
      (Normal tt,
       {| _handlers := _handlers w ++
            [ {| Handler.mode := mode; Handler.activity := None;
                 Handler.listener := listener; Handler.once := false |} ];
          trace := trace w |})
  ∧ ActivityEvents.onceAny mode listener w =
      (Normal tt,
       {| _handlers := _handlers w ++
            [ {| Handler.mode := mode; Handler.activity := None;
                 Handler.listener := listener; Handler.once := true |} ];
          trace := trace w |}).
Proof. split_and!; reflexivity. Qed.

(** ** Calls made by listeners during a dispatch *)

(** The handlers a dispatch leaves do not depend on what the listeners did:
    the list rebuilt from the snapshot replaces the live one, and with it
    every subscription and unsubscription made while the dispatch ran. *)
Lemma emit_overwrites_listener_calls
    (behaviour behaviour' : Listener → EventArgType → World → Body)
    modeFilter activityName args w :
  _handlers (exec (emit behaviour modeFilter activityName args) w) =
  _handlers (exec (emit behaviour' modeFilter activityName args) w).
Proof. by rewrite !emit_handlers. Qed.

(** The listeners called in a dispatch are those of the snapshot, each
    matching entry once: an entry subscribed by a listener is not called in
    the same cycle, and an entry unsubscribed by a listener is. *)
Lemma emit_calls_the_snapshot
    (behaviour : Listener → EventArgType → World → Body)
    modeFilter activityName args w :
  invoked (effects_of (emit behaviour modeFilter activityName args) w) =
  filter (matches modeFilter activityName) (_handlers w).
Proof.
  apply (cycle_invoked behaviour modeFilter activityName args).
  apply emit_effects.
Qed.

(** C5 does not hold of the code. Listener 1 unsubscribes listener 2, which
    comes after it, and then itself. In that cycle each of the two is called
    once, listener 2 too. But when the cycle is over both entries are still
    registered, and the next dispatch calls both again; the same two calls of
    [off] made outside a dispatch do remove them. *)
Theorem unsubscribe_in_listener_is_undone :
  invoked
    (effects_of
       (emit Examples.unsubscriber {[ "AnyInvolved" ]} "Kiss"
          Examples.kiss_args)
       {| _handlers := [Examples.any_1; Examples.kiss_2]; trace := [] |})
  = [Examples.any_1; Examples.kiss_2]
  ∧ _handlers
      (exec
         (call_listener Examples.unsubscriber Examples.any_1
            Examples.kiss_args)
         {| _handlers := [Examples.any_1; Examples.kiss_2]; trace := [] |})
    = []
  ∧ _handlers
      (exec
         (emit Examples.unsubscriber {[ "AnyInvolved" ]} "Kiss"
            Examples.kiss_args)
         {| _handlers := [Examples.any_1; Examples.kiss_2]; trace := [] |})
    = [Examples.any_1; Examples.kiss_2]
  ∧ invoked
      (effects_of
         (emit Examples.unsubscriber {[ "AnyInvolved" ]} "Kiss"
            Examples.kiss_args)
         (exec
            (emit Examples.unsubscriber {[ "AnyInvolved" ]} "Kiss"
               Examples.kiss_args)
            {| _handlers := [Examples.any_1; Examples.kiss_2];
               trace := [] |}))
    = [Examples.any_1; Examples.kiss_2]
  ∧ _handlers
      (exec
         (ActivityEvents.off "AnyInvolved" (Some "Kiss") (Some 2);;
          ActivityEvents.off "AnyInvolved" None (Some 1))
         {| _handlers := [Examples.any_1; Examples.kiss_2]; trace := [] |})
    = [].
Proof. split_and!; by vm_compute. Qed.

(** C6 does not hold of the code. Listener 1 subscribes listener 2 while it is
    being called. Listener 2 is not called in that cycle, and the live list
    holds its entry while the cycle runs. But when the cycle is over the
    entry is not among the handlers, and the next dispatch does not call
    listener 2 either; the same call of [on] made outside a dispatch does
    register it. *)
Theorem subscription_in_listener_is_lost :
  invoked
    (effects_of
       (emit Examples.subscriber {[ "AnyInvolved" ]} "Kiss" Examples.kiss_args)
       {| _handlers := [Examples.any_1]; trace := [] |})
  = [Examples.any_1]
  ∧ _handlers
      (exec
         (call_listener Examples.subscriber Examples.any_1 Examples.kiss_args)
         {| _handlers := [Examples.any_1]; trace := [] |})
    = [Examples.any_1; Examples.kiss_2]
  ∧ _handlers
      (exec
         (emit Examples.subscriber {[ "AnyInvolved" ]} "Kiss"
            Examples.kiss_args)
         {| _handlers := [Examples.any_1]; trace := [] |})
    = [Examples.any_1]
  ∧ invoked
      (effects_of
         (emit Examples.subscriber {[ "AnyInvolved" ]} "Kiss"
            Examples.kiss_args)
         (exec
            (emit Examples.subscriber {[ "AnyInvolved" ]} "Kiss"
               Examples.kiss_args)
            {| _handlers := [Examples.any_1]; trace := [] |}))
    = [Examples.any_1]
  ∧ _handlers
      (exec (ActivityEvents.on "AnyInvolved" "Kiss" 2)
         {| _handlers := [Examples.any_1]; trace := [] |})
    = [Examples.any_1; Examples.kiss_2].
Proof. split_and!; by vm_compute. Qed.

(** ** Dispatches caused by listeners *)

Lemma for_of_ext {A B} (f g : A → B → Js B) (xs : list A) :
  (∀ x acc w, f x acc w = g x acc w) →
  ∀ acc w, for_of xs f acc w = for_of xs g acc w.
Proof.
  intros Hfg. induction xs as [|x xs IH]; intros acc w; [done|].
  simpl. unfold mbind, Js_bind. rewrite Hfg.
  destruct (g x acc w) as [[acc'|e] w']; [apply IH | done].
Qed.

Section ReentrantFacts.

Variable script : Listener → EventArgType → World → Script.

(** Whatever a nested dispatch does, the loop of the outer one runs to its
    end and rebuilds the surviving entries of its own snapshot. *)
Lemma reentrant_loop_run nested modeFilter activityName args cp : ∀ acc w,
  ∃ w',
    for_of cp
      (Reentrant.emit_body script nested modeFilter activityName args) acc w
    = (Normal (acc ++ filter (survives modeFilter activityName) cp), w').
Proof.
  induction cp as [|h cp IH]; intros acc w.
  - exists w. simpl. by rewrite app_nil_r.
  - simpl. rewrite filter_cons.
    destruct (decide (survives modeFilter activityName h)) as [Hs|Hs];
      rewrite survives_spec in Hs;
      unfold mbind, Js_bind, Reentrant.emit_body at 1;
      destruct (matches modeFilter activityName h) eqn:Hm;
      destruct (Handler.once h) eqn:Ho;
      try (exfalso; destruct Hs; discriminate);
      try (exfalso; apply Hs; by auto);
      unfold mbind, Js_bind, try_catch;
      try destruct (Reentrant.call_listener script nested h args w)
        as [[[]|e] w1];
      simpl;
      first [ destruct (IH (acc ++ [h]) w) as [w' ->]
            | destruct (IH (acc ++ [h]) w1) as [w' ->]
            | destruct (IH (acc ++ [h])
                          {| _handlers := _handlers w1;
                             trace := trace w1 ++
                               [ConsoleError (error_message h) e] |})
                as [w' ->]
            | destruct (IH acc w1) as [w' ->]
            | destruct (IH acc
                          {| _handlers := _handlers w1;
                             trace := trace w1 ++
                               [ConsoleError (error_message h) e] |})
                as [w' ->] ];
      exists w'; by rewrite <- ?app_assoc.
Qed.

(** With nested dispatches too, [emit] returns normally and leaves the
    snapshot less its matching one-shot entries. *)
Lemma reentrant_emit_handlers depth modeFilter activityName args w :
  completion (Reentrant.emit script depth modeFilter activityName args) w
  = Normal tt
  ∧ _handlers
      (exec (Reentrant.emit script depth modeFilter activityName args) w)
    = filter (survives modeFilter activityName) (_handlers w).
Proof.
  destruct depth; simpl; unfold Reentrant.emit_with, completion, exec;
    js_unfold;
    match goal with
    | |- context [for_of _ (Reentrant.emit_body script ?n _ _ _) _ _] =>
        destruct (reentrant_loop_run n modeFilter activityName args
                    (_handlers w) [] w) as [w' ->]
    end; by simpl.
Qed.

End ReentrantFacts.

(** For listeners that cause no dispatch, [emit] with nested dispatches is
    the [emit] of the class as modelled above, at every depth. *)
Lemma reentrant_without_dispatch
    (behaviour : Listener → EventArgType → World → Body)
    depth modeFilter activityName args w :
  Reentrant.emit (λ l a w', script_of (behaviour l a w')) depth
    modeFilter activityName args w
  = emit behaviour modeFilter activityName args w.
Proof.
  assert (Hcalls : ∀ nested cs w0,
    for_of (act_call <$> cs) (λ a _, Reentrant.act nested a) tt w0
    = for_of cs (λ c _, perform c) tt w0).
  { intros nested cs. induction cs as [|c cs IH]; intros w0; [done|].
    simpl. unfold mbind, Js_bind.
    destruct (perform c w0) as [[[]|e] w1]; [apply IH | done]. }
  assert (Hwith : ∀ nested,
    Reentrant.emit_with (λ l a w', script_of (behaviour l a w')) nested
      modeFilter activityName args w
    = emit behaviour modeFilter activityName args w).
  { intros nested. unfold Reentrant.emit_with, emit, mbind, Js_bind.
    simpl.
    rewrite (for_of_ext
               (Reentrant.emit_body (λ l a w', script_of (behaviour l a w'))
                  nested modeFilter activityName args)
               (emit_body behaviour modeFilter activityName args)); [done|].
    intros h acc w0. unfold Reentrant.emit_body, emit_body.
    destruct (matches modeFilter activityName h); [|done].
    unfold mbind, Js_bind, try_catch, Reentrant.call_listener, call_listener.
    unfold mbind, Js_bind, observe. simpl. by rewrite Hcalls. }
  destruct depth; apply Hwith.
Qed.

(** C1 does not hold of the code when a listener causes a dispatch. The
    handlers are a persistent entry for listener 1 and a one-shot entry for
    listener 3, both for kisses. Listener 1, the first time it is called,
    has a kiss delivered, which is dispatched before its call returns. In
    the dispatch of a kiss, the nested dispatch calls listener 3 and the
    outer loop, which walks its own snapshot, calls it again: a one-shot
    listener is called twice. In the dispatch of a slap, the nested dispatch
    calls listener 3 and removes its entry, the outer dispatch puts the
    entry back, and the next kiss calls listener 3 a second time. The same
    two kisses dispatched one after the other call it once. *)
Theorem once_entry_fires_twice_when_dispatch_nests :
  invoked
    (effects_of
       (Reentrant.emit Examples.redispatcher 1 {[ "AnyInvolved" ]} "Kiss"
          Examples.kiss_args)
       {| _handlers := [Examples.any_1; Examples.once_kiss_any_3];
          trace := [] |})
  = [Examples.any_1; Examples.any_1;
     Examples.once_kiss_any_3; Examples.once_kiss_any_3]
  ∧ invoked
      (effects_of
         (Reentrant.emit Examples.redispatcher 1 {[ "AnyInvolved" ]} "Slap"
            Examples.kiss_args)
         {| _handlers := [Examples.any_1; Examples.once_kiss_any_3];
            trace := [] |})
    = [Examples.any_1; Examples.any_1; Examples.once_kiss_any_3]
  ∧ _handlers
      (exec
         (Reentrant.emit Examples.redispatcher 1 {[ "AnyInvolved" ]} "Slap"
            Examples.kiss_args)
         {| _handlers := [Examples.any_1; Examples.once_kiss_any_3];
            trace := [] |})
    = [Examples.any_1; Examples.once_kiss_any_3]
  ∧ invoked
      (effects_of
         (Reentrant.emit Examples.redispatcher 1 {[ "AnyInvolved" ]} "Kiss"
            Examples.kiss_args)
         (exec
            (Reentrant.emit Examples.redispatcher 1 {[ "AnyInvolved" ]}
               "Slap" Examples.kiss_args)
            {| _handlers := [Examples.any_1; Examples.once_kiss_any_3];
               trace := [] |}))
    = [Examples.any_1; Examples.once_kiss_any_3]
  ∧ invoked
      (effects_of
         (emit Examples.quiet {[ "AnyInvolved" ]} "Kiss" Examples.kiss_args;;
          emit Examples.quiet {[ "AnyInvolved" ]} "Kiss" Examples.kiss_args)
         {| _handlers := [Examples.any_1; Examples.once_kiss_any_3];
            trace := [] |})
    = [Examples.any_1; Examples.once_kiss_any_3; Examples.any_1].
Proof. split_and!; by vm_compute. Qed.

(** * Further properties of the code *)

(** ** Auxiliary facts *)

Lemma filter_all {A} (P : A → Prop) `{!∀ x, Decision (P x)} (l : list A) :
  (∀ x, x ∈ l → P x) → filter P l = l.
Proof.
  induction l as [|x l IH]; intros Hall; [done|].
  rewrite filter_cons, decide_True by (apply Hall; left).
  f_equal. apply IH. intros y Hy. apply Hall. by right.
Qed.

(** Sequencing after a computation that returns. *)
Lemma exec_seq {A} (m : Js unit) (k : Js A) w :
  completion m w = Normal tt → exec (m;; k) w = exec k (exec m w).
Proof.
  unfold completion, exec, mbind, Js_bind.
  destruct (m w) as [[[]|e] w']; simpl; [done | discriminate].
Qed.

(** ** Unsubscribing *)

(** [off] returns normally, does not touch the trace, and keeps exactly the
    entries it is not aimed at. *)
Lemma off_run mode activity listener w :
  off mode activity listener w =
    (Normal tt,
     {| _handlers :=
          filter (λ h, ¬ targeted mode activity listener h) (_handlers w);
        trace := trace w |}).
Proof.
  unfold off, targeted.
  destruct listener as [l|]; js_unfold; do 2 f_equal;
    apply list_filter_iff; intros h;
    destruct (decide (Handler.mode h = mode)),
             (decide (Handler.activity h = activity));
    try destruct (decide (Handler.listener h = l)); tauto.
Qed.

(** X1. A call of [off] never throws and never calls a listener. Afterwards
    no entry it was aimed at is left, whether it was registered by [on] or
    by [once]; every other entry is there as often as before; and the
    entries that are left are in the order they had. *)
Theorem off_removes_exactly_its_targets
    (mode : EventMode) (activity : option string)
    (listener : option Listener) (w : World) :
  completion (off mode activity listener) w = Normal tt
  ∧ trace (exec (off mode activity listener) w) = trace w
  ∧ (∀ h,
       occurrences h (_handlers (exec (off mode activity listener) w)) =
       if decide (targeted mode activity listener h)
       then 0 else occurrences h (_handlers w))
  ∧ _handlers (exec (off mode activity listener) w)
      `sublist_of` _handlers w.
Proof.
  unfold completion, exec. rewrite off_run. simpl. split_and!; [done..| |].
  - intros h. rewrite occurrences_filter.
    destruct (decide (targeted mode activity listener h));
      destruct (decide (¬ targeted mode activity listener h)); tauto.
  - apply sublist_filter.
Qed.

(** X2. Unsubscribing what is not registered changes nothing at all, and
    unsubscribing a second time changes nothing more. *)
Theorem off_without_target_is_noop
    (mode : EventMode) (activity : option string)
    (listener : option Listener) (w : World) :
  ((∀ h, h ∈ _handlers w → ¬ targeted mode activity listener h) →
   off mode activity listener w = (Normal tt, w))
  ∧ exec (off mode activity listener;; off mode activity listener) w
    = exec (off mode activity listener) w.
Proof.
  split.
  - intros Hnone. rewrite off_run, filter_all by done. by rewrite world_eta.
  - rewrite exec_seq by (unfold completion; by rewrite off_run).
    unfold exec. rewrite !off_run. simpl. f_equal.
    apply filter_all. by intros h [? _]%list_elem_of_filter.
Qed.

Lemma off_without_target_is_noop_witness :
  off "AnyInvolved" (Some "Slap") None
    {| _handlers := [Examples.any_1; Examples.kiss_2]; trace := [] |}
  = (Normal tt,
     {| _handlers := [Examples.any_1; Examples.kiss_2]; trace := [] |}).
Proof.
  destruct (off_without_target_is_noop "AnyInvolved" (Some "Slap") None
              {| _handlers := [Examples.any_1; Examples.kiss_2];
                 trace := [] |}) as (H & _).
  apply H. intros h Hin (_ & Hact & _). simpl in Hin.
  apply elem_of_cons in Hin as [->|Hin]; [discriminate|].
  apply elem_of_cons in Hin as [->|Hin]; [discriminate|].
  by apply elem_of_nil in Hin.
Defined.

(** X3. A subscription followed by the unsubscription of the same mode,
    activity and listener leaves what the unsubscription alone would have
    left; when that listener was not registered for that mode and activity
    before, the handlers are back as they were. *)
Theorem subscribe_then_off_restores
    (c : Call) (h : Handler) (w : World) :
  entry_of c = Some h →
  exec (perform c;;
        off (Handler.mode h) (Handler.activity h)
          (Some (Handler.listener h))) w
  = exec (off (Handler.mode h) (Handler.activity h)
            (Some (Handler.listener h))) w
  ∧ ((∀ h', h' ∈ _handlers w →
        ¬ targeted (Handler.mode h) (Handler.activity h)
            (Some (Handler.listener h)) h') →
     exec (perform c;;
           off (Handler.mode h) (Handler.activity h)
             (Some (Handler.listener h))) w
     = w).
Proof.
  intros E.
  assert (Heq :
    exec (perform c;;
          off (Handler.mode h) (Handler.activity h)
            (Some (Handler.listener h))) w
    = exec (off (Handler.mode h) (Handler.activity h)
              (Some (Handler.listener h))) w).
  { rewrite exec_seq
      by (unfold completion; by rewrite (perform_subscribe c h w E)).
    unfold exec. rewrite (perform_subscribe c h w E), !off_run. simpl.
    f_equal. rewrite filter_app, filter_cons, filter_nil.
    rewrite decide_False; [by rewrite app_nil_r|].
    intros Hn. apply Hn. by split_and!. }
  split; [exact Heq|].
  intros Hnone. rewrite Heq. unfold exec.
  rewrite off_run, filter_all by done. simpl. by rewrite world_eta.
Qed.

Lemma subscribe_then_off_restores_witness :
  exec (perform (call_once "SelfOnSelf" "Kiss" 3);;
        off "SelfOnSelf" (Some "Kiss") (Some 3))
    {| _handlers := [Examples.any_1; Examples.kiss_2]; trace := [] |}
  = {| _handlers := [Examples.any_1; Examples.kiss_2]; trace := [] |}.
Proof.
  destruct (subscribe_then_off_restores (call_once "SelfOnSelf" "Kiss" 3)
              Examples.once_kiss_3
              {| _handlers := [Examples.any_1; Examples.kiss_2];
                 trace := [] |} eq_refl) as (_ & H).
  apply H. intros h Hin (Hmode & _). simpl in Hin.
  apply elem_of_cons in Hin as [->|Hin]; [discriminate|].
  apply elem_of_cons in Hin as [->|Hin]; [discriminate|].
  by apply elem_of_nil in Hin.
Defined.

(** X4. After a call of [off] made outside a dispatch, a dispatch calls the
    listeners it would have called without it, less the entries the call was
    aimed at, in the same order. In particular unsubscribing one activity of
    a mode does not silence the entries of that mode registered for any
    activity: they are still called for that activity. *)
Theorem off_then_dispatch
    (behaviour : Listener → EventArgType → World → Body)
    (mode : EventMode) (activity : option string)
    (listener : option Listener)
    (modeFilter : gset EventMode) (activityName : string)
    (args : EventArgType) (w : World) :
  invoked
    (effects_of (emit behaviour modeFilter activityName args)
       (exec (off mode activity listener) w))
  = filter (λ h, ¬ targeted mode activity listener h)
      (invoked (effects_of (emit behaviour modeFilter activityName args) w))
  ∧ (∀ h a,
       activity = Some a →
       h ∈ _handlers w →
       Handler.activity h = None →
       Handler.mode h ∈ modeFilter →
       Invoked h args
         ∈ effects_of (emit behaviour modeFilter activityName args)
             (exec (off mode activity listener) w)).
Proof.
  assert (Hw : _handlers (exec (off mode activity listener) w) =
               filter (λ h, ¬ targeted mode activity listener h)
                 (_handlers w)).
  { unfold exec. by rewrite off_run. }
  split.
  - rewrite !emit_calls_the_snapshot, Hw, !list_filter_filter.
    apply list_filter_iff. tauto.
  - intros h a -> Hin Hnull Hmode.
    apply (cycle_invoked_elem behaviour modeFilter activityName args
             _ _ h args (emit_effects _ _ _ _ _)).
    rewrite Hw, list_elem_of_filter, matches_spec. split_and!; try tauto.
    intros (_ & Hact & _). congruence.
Qed.

Lemma off_then_dispatch_witness :
  Invoked Examples.any_1 Examples.kiss_args
    ∈ effects_of
        (emit Examples.quiet {[ "AnyInvolved" ]} "Kiss" Examples.kiss_args)
        (exec (off "AnyInvolved" (Some "Kiss") None)
           {| _handlers := [Examples.any_1; Examples.kiss_2];
              trace := [] |}).
Proof.
  destruct (off_then_dispatch Examples.quiet "AnyInvolved" (Some "Kiss") None
              {[ "AnyInvolved" ]} "Kiss" Examples.kiss_args
              {| _handlers := [Examples.any_1; Examples.kiss_2];
                 trace := [] |}) as (_ & H).
  apply (H Examples.any_1 "Kiss").
  - reflexivity.
  - apply list_elem_of_here.
  - reflexivity.
  - simpl. apply elem_of_singleton. reflexivity.
Defined.

(** ** The modes the message handler dispatches with *)

(** Which of the mode names each of the four sets holds. *)

Lemma SelfOnSelf_members :
  "AnyInvolved" ∈ modesFilters.SelfOnSelf
  ∧ "AnyOnSelf" ∈ modesFilters.SelfOnSelf
  ∧ "SelfOnSelf" ∈ modesFilters.SelfOnSelf
  ∧ ("OthersOnSelf" ∉ modesFilters.SelfOnSelf)
  ∧ ("SelfOnOthers" ∉ modesFilters.SelfOnSelf)
  ∧ "SelfInvolved" ∈ modesFilters.SelfOnSelf
  ∧ ("OthersOnOthers" ∉ modesFilters.SelfOnSelf).
Proof. split_and!; compute_done. Qed.

Lemma OthersOnSelf_members :
  "AnyInvolved" ∈ modesFilters.OthersOnSelf
  ∧ "AnyOnSelf" ∈ modesFilters.OthersOnSelf
  ∧ ("SelfOnSelf" ∉ modesFilters.OthersOnSelf)
  ∧ "OthersOnSelf" ∈ modesFilters.OthersOnSelf
  ∧ ("SelfOnOthers" ∉ modesFilters.OthersOnSelf)
  ∧ "SelfInvolved" ∈ modesFilters.OthersOnSelf
  ∧ ("OthersOnOthers" ∉ modesFilters.OthersOnSelf).
Proof. split_and!; compute_done. Qed.

Lemma SelfOnOthers_members :
  "AnyInvolved" ∈ modesFilters.SelfOnOthers
  ∧ ("AnyOnSelf" ∉ modesFilters.SelfOnOthers)
  ∧ ("SelfOnSelf" ∉ modesFilters.SelfOnOthers)
  ∧ ("OthersOnSelf" ∉ modesFilters.SelfOnOthers)
  ∧ "SelfOnOthers" ∈ modesFilters.SelfOnOthers
  ∧ "SelfInvolved" ∈ modesFilters.SelfOnOthers
  ∧ ("OthersOnOthers" ∉ modesFilters.SelfOnOthers).
Proof. split_and!; compute_done. Qed.

Lemma OthersOnOthers_members :
  "AnyInvolved" ∈ modesFilters.OthersOnOthers
  ∧ ("AnyOnSelf" ∉ modesFilters.OthersOnOthers)
  ∧ ("SelfOnSelf" ∉ modesFilters.OthersOnOthers)
  ∧ ("OthersOnSelf" ∉ modesFilters.OthersOnOthers)
  ∧ ("SelfOnOthers" ∉ modesFilters.OthersOnOthers)
  ∧ ("SelfInvolved" ∉ modesFilters.OthersOnOthers)
  ∧ ("OthersOnOthers" ∉ modesFilters.OthersOnOthers).
Proof. split_and!; compute_done. Qed.

(** X5. When each mode is notified by the message handler, in terms of the
    message: AnyInvolved always; AnyOnSelf exactly when the target is the
    player; SelfOnSelf exactly when the target and the sender are the player;
    OthersOnSelf exactly when the target is the player and the sender is
    not; SelfOnOthers exactly when the target is not the player and the
    record's source is; SelfInvolved exactly when the target or the record's
    source is the player. No message is dispatched with a mode
    OthersOnOthers. *)
Theorem Callback_mode_membership
    (Player sender : Character) (info : ActivityInfo) :
  "AnyInvolved" ∈ Callback_mode Player sender info
  ∧ ("AnyOnSelf" ∈ Callback_mode Player sender info
     ↔ TargetCharacter info = MemberNumber Player)
  ∧ ("SelfOnSelf" ∈ Callback_mode Player sender info
     ↔ TargetCharacter info = MemberNumber Player
       ∧ MemberNumber sender = MemberNumber Player)
  ∧ ("OthersOnSelf" ∈ Callback_mode Player sender info
     ↔ TargetCharacter info = MemberNumber Player
       ∧ MemberNumber sender ≠ MemberNumber Player)
  ∧ ("SelfOnOthers" ∈ Callback_mode Player sender info
     ↔ TargetCharacter info ≠ MemberNumber Player
       ∧ SourceCharacter info = MemberNumber Player)
  ∧ ("SelfInvolved" ∈ Callback_mode Player sender info
     ↔ TargetCharacter info = MemberNumber Player
       ∨ SourceCharacter info = MemberNumber Player)
  ∧ ("OthersOnOthers" ∉ Callback_mode Player sender info).
Proof.
  unfold Callback_mode.
  repeat case_bool_decide;
    [ pose proof SelfOnSelf_members as (?&?&?&?&?&?&?)
    | pose proof OthersOnSelf_members as (?&?&?&?&?&?&?)
    | pose proof SelfOnOthers_members as (?&?&?&?&?&?&?)
    | pose proof OthersOnOthers_members as (?&?&?&?&?&?&?) ];
    split_and!; try assumption; intuition congruence.
Qed.

(** The modes of a dispatch by the message handler are among the six. *)
Lemma Callback_mode_within_modes Player sender info m :
  m ∈ Callback_mode Player sender info → m ∈ ActivityTriggerMode.
Proof.
  unfold Callback_mode, ActivityTriggerMode.
  repeat case_bool_decide;
    unfold modesFilters.SelfOnSelf, modesFilters.OthersOnSelf,
      modesFilters.SelfOnOthers, modesFilters.OthersOnOthers;
    rewrite ?elem_of_union, ?elem_of_singleton; tauto.
Qed.

(** ** The registered message handler, end to end *)

(** What the callback of the registered handler adds to the trace. *)
Lemma Callback_effects {Data Metadata}
    (behaviour : Listener → EventArgType → World → Body)
    Player version
    (pullActivityInfo :
       Data → Character → string → Metadata → option ActivityInfo)
    data sender msg metadata w :
  effects_of
    (Callback (registered_handler behaviour Player version pullActivityInfo)
       data sender msg metadata) w =
  match pullActivityInfo data sender msg metadata with
  | None => []
  | Some info =>
      effects_of
        (emit behaviour (Callback_mode Player sender info)
           (ActivityName info) (sender, Player, info)) w
  end.
Proof.
  unfold effects_of at 1, exec at 1.
  rewrite registered_handler_answers_false. simpl.
  destruct (pullActivityInfo data sender msg metadata); [done|].
  apply drop_all.
Qed.

(** X6. The callback of the registered handler always answers [false] and
    never throws. For a message without activity information nothing is
    changed and no listener is called. For a message with activity
    information the listener of an entry is called exactly when the entry is
    registered, its mode is in the mode set of the message and its activity
    is null or the activity of the message; and every listener called gets
    the sender, the player and the activity record. *)
Theorem registered_handler_delivers {Data Metadata}
    (behaviour : Listener → EventArgType → World → Body)
    (Player : Character) (version : string)
    (pullActivityInfo :
       Data → Character → string → Metadata → option ActivityInfo)
    (data : Data) (sender : Character) (msg : string) (metadata : Metadata)
    (w : World) :
  completion
    (Callback (registered_handler behaviour Player version pullActivityInfo)
       data sender msg metadata) w = Normal false
  ∧ match pullActivityInfo data sender msg metadata with
    | None =>
        exec
          (Callback
             (registered_handler behaviour Player version pullActivityInfo)
             data sender msg metadata) w = w
    | Some info =>
        ∀ h args,
          Invoked h args
            ∈ effects_of
                (Callback
                   (registered_handler behaviour Player version
                      pullActivityInfo)
                   data sender msg metadata) w
          ↔ args = (sender, Player, info)
            ∧ h ∈ _handlers w
            ∧ Handler.mode h ∈ Callback_mode Player sender info
            ∧ (Handler.activity h = None
               ∨ Handler.activity h = Some (ActivityName info))
    end.
Proof.
  split.
  - unfold completion. by rewrite registered_handler_answers_false.
  - pose proof (Callback_effects behaviour Player version pullActivityInfo
                  data sender msg metadata w) as Heff.
    pose proof (registered_handler_answers_false behaviour Player version
                  pullActivityInfo data sender msg metadata w) as Hrun.
    destruct (pullActivityInfo data sender msg metadata) as [info|].
    + intros h args. rewrite Heff.
      rewrite (cycle_invoked_elem behaviour _ _ _ _ _ h args
                 (emit_effects _ _ _ _ _)), matches_spec.
      tauto.
    + unfold exec. by rewrite Hrun.
Qed.

(** X7. An entry whose mode is none of the six is never called by the
    registered handler, whatever the message. *)
Theorem unknown_mode_never_notified {Data Metadata}
    (behaviour : Listener → EventArgType → World → Body)
    (Player : Character) (version : string)
    (pullActivityInfo :
       Data → Character → string → Metadata → option ActivityInfo)
    (data : Data) (sender : Character) (msg : string) (metadata : Metadata)
    (w : World) (h : Handler) (args : EventArgType) :
  Handler.mode h ∉ ActivityTriggerMode →
  Invoked h args
    ∉ effects_of
        (Callback
           (registered_handler behaviour Player version pullActivityInfo)
           data sender msg metadata) w.
Proof.
  intros Hmode. rewrite Callback_effects.
  destruct (pullActivityInfo data sender msg metadata) as [info|].
  - rewrite (cycle_invoked_elem behaviour _ _ _ _ _ h args
               (emit_effects _ _ _ _ _)), matches_spec.
    intros (_ & _ & Hin & _).
    by apply Callback_mode_within_modes in Hin.
  - apply not_elem_of_nil.
Qed.

Lemma unknown_mode_never_notified_witness :
  Invoked
    {| Handler.mode := "OthersOnOthers"; Handler.activity := None;
       Handler.listener := 1; Handler.once := false |}
    Examples.kiss_args
  ∉ effects_of
      (Callback
         (registered_handler Examples.quiet Examples.player "1.0"
            (λ (_ : unit) _ _ (_ : unit), Some Examples.kiss))
         tt Examples.alice "" tt)
      {| _handlers :=
           [ {| Handler.mode := "OthersOnOthers"; Handler.activity := None;
                Handler.listener := 1; Handler.once := false |} ];
         trace := [] |}.
Proof.
  apply (unknown_mode_never_notified Examples.quiet Examples.player "1.0"
           (λ (_ : unit) _ _ (_ : unit), Some Examples.kiss)
           tt Examples.alice "" tt).
  simpl. compute_done.
Defined.

(** ** More on one dispatch *)

Section MoreDispatch.

Variable behaviour : Listener → EventArgType → World → Body.
Variable modeFilter : gset EventMode.
Variable activityName : string.
Variable args : EventArgType.

Local Abbreviation cycle := (cycle_effects behaviour modeFilter activityName args).

(** A cycle over entries none of which matches has no effect. *)
Lemma cycle_nothing hs evs :
  cycle hs evs →
  (∀ h, h ∈ hs → ¬ matches modeFilter activityName h) →
  evs = [].
Proof.
  induction 1 as [|h hs evs Hm _ IH|h hs evs w Hm _ _ IH
                  |h hs evs w e Hm _ _ IH]; intros Hnone.
  - done.
  - apply IH. intros h' Hin. apply Hnone. by right.
  - destruct (Hnone h); [by left | done].
  - destruct (Hnone h); [by left | done].
Qed.

End MoreDispatch.

(** X8. A dispatch that no registered entry matches does nothing: it
    returns normally and leaves the handlers and the trace as they were. In
    particular a dispatch with an empty mode set does nothing, and neither
    does a dispatch on an emitter without handlers. *)
Theorem dispatch_without_match_is_noop
    (behaviour : Listener → EventArgType → World → Body)
    (modeFilter : gset EventMode) (activityName : string)
    (args : EventArgType) (w : World) :
  ((∀ h, h ∈ _handlers w → matches modeFilter activityName h = false) →
   emit behaviour modeFilter activityName args w = (Normal tt, w))
  ∧ emit behaviour ∅ activityName args w = (Normal tt, w)
  ∧ emit behaviour modeFilter activityName args
      {| _handlers := []; trace := trace w |}
    = (Normal tt, {| _handlers := []; trace := trace w |}).
Proof.
  assert (Hnoop : ∀ M w0,
    (∀ h, h ∈ _handlers w0 → matches M activityName h = false) →
    emit behaviour M activityName args w0 = (Normal tt, w0)).
  { intros M w0 Hnone.
    destruct (emit_run behaviour M activityName args w0) as (evs & -> & Hc).
    rewrite (cycle_nothing _ _ _ _ _ _ Hc), app_nil_r.
    - rewrite filter_all; [by rewrite world_eta|].
      intros h Hin. apply survives_spec. left. by apply Hnone.
    - intros h Hin. rewrite (Hnone h Hin). by intros []. }
  split_and!.
  - apply Hnoop.
  - apply Hnoop. intros h _. unfold matches.
    rewrite (bool_decide_eq_false_2 (Handler.mode h ∈ (∅ : gset EventMode)))
      by apply not_elem_of_empty.
    apply andb_false_r.
  - apply Hnoop. intros h []%elem_of_nil.
Qed.

(** A dispatch of a slap calls nobody when the only entry listens for
    kisses. *)
Lemma dispatch_without_match_is_noop_witness :
  emit Examples.faulty {[ "AnyInvolved" ]} "Slap" Examples.kiss_args
    {| _handlers := [Examples.kiss_2]; trace := [] |}
  = (Normal tt, {| _handlers := [Examples.kiss_2]; trace := [] |}).
Proof.
  destruct (dispatch_without_match_is_noop Examples.faulty
              {[ "AnyInvolved" ]} "Slap" Examples.kiss_args
              {| _handlers := [Examples.kiss_2]; trace := [] |}) as (H & _).
  apply H. intros h Hin. simpl in Hin.
  apply elem_of_cons in Hin as [->|Hin]; [reflexivity|].
  by apply elem_of_nil in Hin.
Defined.

(** X9. A dispatch shortens the handlers by exactly the number of matching
    one-shot entries; and when no entry is one-shot the handlers are left as
    they were, whatever the listeners did, also when they threw. *)
Theorem dispatch_drops_only_matching_once_entries
    (behaviour : Listener → EventArgType → World → Body)
    (modeFilter : gset EventMode) (activityName : string)
    (args : EventArgType) (w : World) :
  length (_handlers (exec (emit behaviour modeFilter activityName args) w))
  + length
      (filter (λ h, matches modeFilter activityName h ∧ Handler.once h)
         (_handlers w))
  = length (_handlers w)
  ∧ ((∀ h, h ∈ _handlers w → Handler.once h = false) →
     _handlers (exec (emit behaviour modeFilter activityName args) w)
     = _handlers w).
Proof.
  rewrite emit_handlers. split.
  - rewrite Nat.add_comm, <- length_app. apply Permutation_length.
    apply (filter_app_complement
             (λ h, matches modeFilter activityName h ∧ Handler.once h)).
  - intros Hpersistent. apply filter_all.
    intros h Hin. apply survives_spec. right. by apply Hpersistent.
Qed.

Lemma dispatch_drops_only_matching_once_entries_witness :
  _handlers
    (exec (emit Examples.faulty {[ "AnyInvolved" ]} "Kiss" Examples.kiss_args)
       {| _handlers := [Examples.any_1; Examples.kiss_2]; trace := [] |})
  = [Examples.any_1; Examples.kiss_2].
Proof.
  destruct (dispatch_drops_only_matching_once_entries Examples.faulty
              {[ "AnyInvolved" ]} "Kiss" Examples.kiss_args
              {| _handlers := [Examples.any_1; Examples.kiss_2];
                 trace := [] |}) as (_ & H).
  apply H. intros h Hin. simpl in Hin.
  apply elem_of_cons in Hin as [->|Hin]; [reflexivity|].
  apply elem_of_cons in Hin as [->|Hin]; [reflexivity|].
  by apply elem_of_nil in Hin.
Defined.

(** X10. When a dispatch is followed by another one with the same mode set
    and activity, the second leaves the handlers as the first left them and
    calls exactly the matching entries that are not one-shot, in
    registration order. *)
Theorem repeated_dispatch
    (behaviour : Listener → EventArgType → World → Body)
    (modeFilter : gset EventMode) (activityName : string)
    (args args' : EventArgType) (w : World) :
  _handlers
    (exec (emit behaviour modeFilter activityName args;;
           emit behaviour modeFilter activityName args') w)
  = _handlers (exec (emit behaviour modeFilter activityName args) w)
  ∧ invoked
      (effects_of (emit behaviour modeFilter activityName args')
         (exec (emit behaviour modeFilter activityName args) w))
    = filter
        (λ h, matches modeFilter activityName h ∧ ¬ Handler.once h)
        (_handlers w).
Proof.
  split.
  - rewrite exec_seq by apply emit_returns.
    rewrite !emit_handlers. apply filter_all.
    by intros h [? _]%list_elem_of_filter.
  - rewrite emit_calls_the_snapshot, emit_handlers, list_filter_filter.
    apply list_filter_iff. intros h. unfold survives.
    destruct (matches modeFilter activityName h), (Handler.once h);
      simpl; tauto.
Qed.

(** X11. In one dispatch the listener of an entry is called as many times
    as the entry is registered when it matches, and not at all when it does
    not: no registration is served twice and none is skipped. *)
Theorem each_registration_served_once
    (behaviour : Listener → EventArgType → World → Body)
    (modeFilter : gset EventMode) (activityName : string)
    (args : EventArgType) (w : World) (h : Handler) :
  occurrences h
    (invoked (effects_of (emit behaviour modeFilter activityName args) w))
  = if matches modeFilter activityName h
    then occurrences h (_handlers w) else 0.
Proof.
  rewrite emit_calls_the_snapshot, occurrences_filter.
  destruct (matches modeFilter activityName h); by destruct (decide _).
Qed.

(** X12. [emit] writes on the console only to report a failure: every
    report comes right after the call of a matching entry of the snapshot
    whose listener threw, in that very call, the reported value, and it
    carries that entry's message; and a call that returns is not followed by
    a report. *)
Theorem console_only_reports_failures
    (behaviour : Listener → EventArgType → World → Body)
    (modeFilter : gset EventMode) (activityName : string)
    (args : EventArgType) (w : World) :
  (∀ pre message e post,
     effects_of (emit behaviour modeFilter activityName args) w
     = pre ++ ConsoleError message e :: post →
     ∃ pre' h,
       pre = pre' ++ [Invoked h args]
       ∧ h ∈ _handlers w
       ∧ matches modeFilter activityName h
       ∧ message =
           "Error in activity event listener for "
           +:+ default "null" (Handler.activity h)
           +:+ " (" +:+ Handler.mode h +:+ "):"
       ∧ throws
           (behaviour (Handler.listener h) args
              (at_call (world_after behaviour pre' w) h args)) = Some e)
  ∧ (∀ pre h post,
       effects_of (emit behaviour modeFilter activityName args) w
       = pre ++ Invoked h args :: post →
       throws
         (behaviour (Handler.listener h) args
            (at_call (world_after behaviour pre w) h args)) = None →
       ∀ message e post', post ≠ ConsoleError message e :: post').
Proof.
  pose proof (emit_exact behaviour modeFilter activityName args w) as Hc.
  split.
  - intros pre message e post E.
    apply (exact_report_origin behaviour modeFilter activityName args
             _ _ _ Hc pre message e post E).
  - intros pre h post E Ht.
    destruct (exact_call_reported behaviour modeFilter activityName args
                _ _ _ Hc pre h args post E) as (_ & Hreport).
    unfold thrown in Hreport. by rewrite Ht in Hreport.
Qed.

(** Listener 1 throws a value that depends on the world of the call, and
    listener 2 returns: the report after the call of listener 1 holds the
    value thrown in that call, and nothing follows the call of
    listener 2. *)
Lemma console_only_reports_failures_witness :
  (∃ pre' h,
     [Invoked Examples.any_1 Examples.kiss_args]
     = pre' ++ [Invoked h Examples.kiss_args]
     ∧ h ∈ [Examples.any_1; Examples.kiss_2]
     ∧ matches {[ "AnyInvolved" ]} "Kiss" h
     ∧ "Error in activity event listener for null (AnyInvolved):"
       = "Error in activity event listener for "
         +:+ default "null" (Handler.activity h)
         +:+ " (" +:+ Handler.mode h +:+ "):"
     ∧ throws
         (Examples.moody (Handler.listener h) Examples.kiss_args
            (at_call
               (world_after Examples.moody pre'
                  {| _handlers := [Examples.any_1; Examples.kiss_2];
                     trace := [] |})
               h Examples.kiss_args)) = Some "first")
  ∧ ∀ message e post', [] ≠ ConsoleError message e :: post'.
Proof.
  destruct (console_only_reports_failures Examples.moody
              {[ "AnyInvolved" ]} "Kiss" Examples.kiss_args
              {| _handlers := [Examples.any_1; Examples.kiss_2];
                 trace := [] |}) as (Horigin & Hquiet).
  split.
  - apply (Horigin [Invoked Examples.any_1 Examples.kiss_args]
             "Error in activity event listener for null (AnyInvolved):"
             "first" [Invoked Examples.kiss_2 Examples.kiss_args]).
    by vm_compute.
  - apply (Hquiet
             [Invoked Examples.any_1 Examples.kiss_args;
              ConsoleError
                "Error in activity event listener for null (AnyInvolved):"
                "first"]
             Examples.kiss_2 []).
    + by vm_compute.
    + reflexivity.
Defined.

(** X13. A subscription made outside a dispatch does not disturb the
    entries registered before it: the next dispatch calls the listeners it
    would have called anyway, in the same order, and after them the new
    listener if its entry matches. *)
Theorem new_subscription_is_served_last
    (behaviour : Listener → EventArgType → World → Body)
    (c : Call) (h : Handler)
    (modeFilter : gset EventMode) (activityName : string)
    (args : EventArgType) (w : World) :
  entry_of c = Some h →
  invoked
    (effects_of (emit behaviour modeFilter activityName args)
       (exec (perform c) w))
  = invoked (effects_of (emit behaviour modeFilter activityName args) w)
    ++ (if matches modeFilter activityName h then [h] else []).
Proof.
  intros E. rewrite !emit_calls_the_snapshot.
  unfold exec at 1. rewrite (perform_subscribe c h w E). simpl.
  rewrite filter_app, filter_cons, filter_nil.
  destruct (matches modeFilter activityName h); by destruct (decide _).
Qed.

Lemma new_subscription_is_served_last_witness :
  invoked
    (effects_of
       (emit Examples.quiet {[ "AnyInvolved" ]} "Kiss" Examples.kiss_args)
       (exec (perform (call_on "AnyInvolved" "Kiss" 2))
          {| _handlers := [Examples.any_1]; trace := [] |}))
  = [Examples.any_1; Examples.kiss_2].
Proof.
  rewrite (new_subscription_is_served_last Examples.quiet
             (call_on "AnyInvolved" "Kiss" 2) Examples.kiss_2
             {[ "AnyInvolved" ]} "Kiss" Examples.kiss_args
             {| _handlers := [Examples.any_1]; trace := [] |} eq_refl).
  reflexivity.
Defined.
